(** * Mailpit: the release (relay) pipeline of [server/apiv1/api.go]

    A shallow embedding of the HTTP handler [ReleaseMessage] and of the
    header rewriter it calls, with the properties of the release pipeline
    stated over the bytes that reach the outbound transport. *)

From Stdlib Require Import String Ascii Bool Arith ZArith Lia List.
Import ListNotations.

Local Open Scope string_scope.
Local Open Scope list_scope.

(** ** Bytes and strings

    A Go [[]byte] is a list of bytes, a Go [string] is a [string];
    [bytes_of] is the conversion [[]byte(s)]. *)

Definition bytes := list ascii.

Definition bytes_of (s : string) : bytes := list_ascii_of_string s.

Definition LF : ascii := "010"%char.
Definition CR : ascii := "013"%char.
Definition SP : ascii := " "%char.
Definition TAB : ascii := "009"%char.
Definition COLON : ascii := ":"%char.

Definition CRLF : bytes := [CR; LF].

(** Results of fallible calls: a value, or Go's [error] with its text. *)
Inductive result (A : Type) : Type :=
| Okay (a : A)
| Err (e : string).
Arguments Okay {A} a.
Arguments Err {A} e.

(** ASCII lower-casing, for the case-insensitive comparison of field names. *)
Definition lower (c : ascii) : ascii :=
  let n := nat_of_ascii c in
  if ((65 <=? n)%nat && (n <=? 90)%nat)%bool then ascii_of_nat (n + 32) else c.

Fixpoint eqb_bytes (a b : bytes) : bool :=
  match a, b with
  | [], [] => true
  | x :: a', y :: b' => Ascii.eqb x y && eqb_bytes a' b'
  | _, _ => false
  end.

Definition eq_fold (a b : bytes) : bool :=
  eqb_bytes (map lower a) (map lower b).

(** ** Lines and header fields *)

(** The lines of a byte sequence; every line keeps its terminator, so that
    concatenating the lines gives the bytes back. *)
Fixpoint split_lines (s : bytes) : list bytes :=
  match s with
  | [] => []
  | c :: s' =>
      if Ascii.eqb c LF then [c] :: split_lines s'
      else match split_lines s' with
           | [] => [[c]]
           | l :: ls => (c :: l) :: ls
           end
  end.

Definition is_blank (l : bytes) : bool :=
  eqb_bytes l [LF] || eqb_bytes l CRLF.

Definition is_cont (l : bytes) : bool :=
  match l with
  | c :: _ => Ascii.eqb c SP || Ascii.eqb c TAB
  | [] => false
  end.

(** The header lines before the first blank line, and the lines from that
    blank line on; [None] when there is no blank line. *)
Fixpoint break_blank (ls : list bytes) : option (list bytes * list bytes) :=
  match ls with
  | [] => None
  | l :: ls' =>
      if is_blank l then Some ([], ls)
      else match break_blank ls' with
           | Some (h, r) => Some (l :: h, r)
           | None => None
           end
  end.

(** Header lines grouped into fields: a line that starts with a space or a
    tab continues the field before it. *)
Fixpoint group_fields (ls : list bytes) : list bytes :=
  match ls with
  | [] => []
  | l :: ls' =>
      match group_fields ls' with
      | f :: fs => if is_cont f then (l ++ f) :: fs else l :: f :: fs
      | [] => [l]
      end
  end.

Definition starts_cont (ls : list bytes) : bool :=
  match ls with
  | l :: _ => is_cont l
  | [] => false
  end.

(** Modelled from the spec: the header block of a RawMessage (section 3),
    which the header rewriter of package [tools], absent from the files at
    hand, works on: the header block and the body are separated by the
    first blank line, and a field keeps its position and its original bytes.
    A raw message is split into its header fields and the rest (the blank
    line and the body); each field is the exact byte run of the field, its
    line terminators included.  [None] when the header block has no blank
    line after it or starts with a continuation line. *)
Definition parse_message (msg : bytes) : option (list bytes * bytes) :=
  match break_blank (split_lines msg) with
  | Some (h, r) =>
      if starts_cont h then None else Some (group_fields h, concat r)
  | None => None
  end.

Definition unparse (fs : list bytes) (rest : bytes) : bytes :=
  concat fs ++ rest.

Definition header_fields (msg : bytes) : list bytes :=
  match parse_message msg with
  | Some (fs, _) => fs
  | None => []
  end.

Definition message_rest (msg : bytes) : bytes :=
  match parse_message msg with
  | Some (_, r) => r
  | None => []
  end.

(** The name of a field: the bytes before its first colon. *)
Fixpoint field_name (f : bytes) : bytes :=
  match f with
  | [] => []
  | c :: f' => if Ascii.eqb c COLON then [] else c :: field_name f'
  end.

(** What follows the first colon of a field. *)
Fixpoint field_body (f : bytes) : bytes :=
  match f with
  | [] => []
  | c :: f' => if Ascii.eqb c COLON then f' else field_body f'
  end.

Fixpoint skip_ws (s : bytes) : bytes :=
  match s with
  | c :: s' => if Ascii.eqb c SP || Ascii.eqb c TAB then skip_ws s' else s
  | [] => []
  end.

Definition strip_eol (s : bytes) : bytes :=
  match rev s with
  | c1 :: c2 :: r =>
      if Ascii.eqb c1 LF then
        if Ascii.eqb c2 CR then rev r else rev (c2 :: r)
      else s
  | [c1] => if Ascii.eqb c1 LF then [] else s
  | [] => []
  end.

(** The value of a field: its body without the leading blanks and without
    the final line terminator. *)
Definition field_value (f : bytes) : bytes :=
  strip_eol (skip_ws (field_body f)).

Definition has_name (name : string) (f : bytes) : bool :=
  eq_fold (field_name f) (bytes_of name).

Definition has_any_name (names : list string) (f : bytes) : bool :=
  existsb (fun n => has_name n f) names.

Definition mk_field (name value : bytes) : bytes :=
  name ++ COLON :: SP :: value ++ CRLF.

(** ** The header rewriter (package [tools]) *)

Module tools.

(** Modelled from the spec: Remove (section 4.3) on the parsed header
    block; every field with one of the names goes, the others stay as they
    are. *)
Definition remove_fields (names : list string) (fs : list bytes) : list bytes :=
  filter (fun f => negb (has_any_name names f)) fs.

(** Modelled from the spec: the source of [tools.RemoveMessageHeaders] is
    not among the files at hand; this is the Remove operation of the header
    rewriter (section 4.3): it deletes every header field whose name
    matches, case-insensitively, one of the given names, and leaves the body
    and every other field byte for byte.  A message that does not split into
    a header block and a body is reported as an error. *)
Definition RemoveMessageHeaders (msg : bytes) (headers : list string)
  : result bytes :=
  match parse_message msg with
  | Some (fs, rest) => Okay (unparse (remove_fields headers fs) rest)
  | None => Err "malformed message"
  end.

(** Modelled from the spec: Upsert (section 4.3) on the parsed header
    block; the first field of the name keeps its name and gets the value,
    the later ones of the name go; with no such field, a new one is added
    after the last field.  Values are written on one line. *)
Fixpoint upsert_field (name : string) (value : bytes) (fs : list bytes)
  : list bytes :=
  match fs with
  | [] => [mk_field (bytes_of name) value]
  | f :: fs' =>
      if has_name name f
      then mk_field (field_name f) value :: remove_fields [name] fs'
      else f :: upsert_field name value fs'
  end.

(** Modelled from the spec: the source of [tools.UpdateMessageHeader] is not
    among the files at hand; this is the Upsert operation of the header
    rewriter (section 4.3): when fields with that name exist, the value of
    the first one is replaced and the later ones of that name are removed;
    when none exists, a new field is appended at the end of the header
    block, before the blank line.  The other fields and the body are
    reproduced unchanged. *)
Definition UpdateMessageHeader (msg : bytes) (header value : string)
  : result bytes :=
  match parse_message msg with
  | Some (fs, rest) =>
      Okay (unparse (upsert_field header (bytes_of value) fs) rest)
  | None => Err "malformed message"
  end.

End tools.

(** ** Collaborators of the handler *)

(** [mail.Address] of Go's net/mail. *)
Record mail_Address := { Name : string; Address : string }.

(** [config.SMTPRelayConfig]: a compiled regular expression is the
    predicate [MatchString] decides; [None] is the nil pointer. *)
Record SMTPRelayConfig := {
  AllowedRecipientsRegexp : option (string -> bool);
  ReturnPath : string
}.

(** The JSON body of the request, [releaseMessageRequestBody]. *)
Record releaseMessageRequestBody := { To : list string }.

(** The request: the [id] route variable, and what [decoder.Decode] makes of
    the body. *)
Record Request := {
  vars_id : string;
  Body : result releaseMessageRequestBody
}.

(** One call of [smtpd.Send]. *)
Record SendCall := {
  send_from : string;
  send_to : list string;
  send_msg : bytes
}.

(** What the handler calls from outside this file: Go's net/mail, the
    message store, the outbound transport, the clock and the identifier
    generator. *)
Record Env := {
  mail_Header : Type;
  mail_ParseAddress : string -> result mail_Address;
  mail_ReadMessage : bytes -> result mail_Header;
  Header_AddressList : mail_Header -> string -> result (list mail_Address);
  Header_Get : mail_Header -> string -> string;
  storage_GetMessageRaw : string -> result bytes;
  smtpd_Send : string -> list string -> bytes -> option string;
  (** [time.Now().Format(time.RFC1123Z)] at this invocation *)
  time_Now : string;
  (** [shortuuid.New()] at this invocation *)
  shortuuid_New : string
}.

(** The failure kinds of the release, one per failure site of the handler;
    [BadRequest] is the undecodable request body. *)
Inductive FailureKind :=
| InvalidAddress
| RecipientNotAllowed
| EmptyRecipientList
| NoSenderFound
| MalformedMessage
| DeliveryFailed
| BadRequest.

(** What the caller gets: the acknowledgment, [fourOFour], [httpError] with
    its text, or no response at all when the handler panics. *)
Inductive Response :=
| RespOK
| NotFound
| HttpError (kind : FailureKind) (msg : string)
| Panicked.

(** ** The handler monad: early return of a response, and the log of the
    calls made to the outbound transport. *)

Definition Handler (A : Type) : Type :=
  list SendCall -> (Response + A) * list SendCall.

Definition ret {A} (a : A) : Handler A := fun log => (inr a, log).

Definition reply {A} (r : Response) : Handler A := fun log => (inl r, log).

Definition bind {A B} (m : Handler A) (k : A -> Handler B) : Handler B :=
  fun log =>
    match m log with
    | (inl r, log') => (inl r, log')
    | (inr a, log') => k a log'
    end.

Notation "x <- m ;; k" := (bind m (fun x => k))
  (at level 61, m at next level, right associativity).
Notation "m ;;; k" := (bind m (fun _ => k))
  (at level 61, right associativity).
Notation "a +++ b" := (String.append a b)
  (at level 60, right associativity).

(** [if err != nil { httpError(w, err.Error()); return }] *)
Definition try {A} (kind : FailureKind) (r : result A) : Handler A :=
  match r with
  | Okay a => ret a
  | Err e => reply (HttpError kind e)
  end.

Definition when (b : bool) (r : Response) : Handler unit :=
  if b then reply r else ret tt.

Definition crlf : string := String CR (String LF EmptyString).

(** ** The handler [ReleaseMessage] *)

Section Release.

Variable env : Env.
Variable cfg : SMTPRelayConfig.

(** [config.SMTPRelayConfig.AllowedRecipientsRegexp != nil &&
    !config.SMTPRelayConfig.AllowedRecipientsRegexp.MatchString(address.Address)] *)
Definition not_allowed (address : mail_Address) : bool :=
  match AllowedRecipientsRegexp cfg with
  | Some re => negb (re (Address address))
  | None => false
  end.

(** The loop [for _, to := range data.To]. *)
Fixpoint check_recipients (tos : list string) : Handler unit :=
  match tos with
  | [] => ret tt
  | to :: tos' =>
      match mail_ParseAddress env to with
      | Err _ =>
          reply (HttpError InvalidAddress ("Invalid email address: " +++ to))
      | Okay address =>
          when (not_allowed address)
               (HttpError RecipientNotAllowed
                  ("Mail address does not match allowlist: " +++ to)) ;;;
          check_recipients tos'
      end
  end.

(** [smtpd.Send(from, to, msg)]: the call is logged, its error returned. *)
Definition send (from : string) (to : list string) (msg : bytes)
  : Handler (option string) :=
  fun log =>
    (inr (smtpd_Send env from to msg),
     log ++ [{| send_from := from; send_to := to; send_msg := msg |}]).

Definition ReleaseMessage (r : Request) : Handler unit :=
  msg <- match storage_GetMessageRaw env (vars_id r) with
         | Okay msg => ret msg
         | Err _ => reply NotFound
         end ;;
  data <- try BadRequest (Body r) ;;
  check_recipients (To data) ;;;
  when (length (To data) =? 0)%nat
       (HttpError EmptyRecipientList "No valid addresses found") ;;;
  m <- try MalformedMessage (mail_ReadMessage env msg) ;;
  froms <- try NoSenderFound (Header_AddressList env m "From") ;;
  from <- match froms with
          | [] => reply (HttpError NoSenderFound "No From header found")
          | a :: _ => ret (Address a)
          end ;;
  (* if sender is used, then change from to the sender *)
  from <- match Header_AddressList env m "Sender" with
          | Okay senders =>
              match senders with
              | s :: _ => ret (Address s)
              | [] => reply Panicked (* senders[0]: index out of range *)
              end
          | Err _ => ret from
          end ;;
  msg <- try MalformedMessage (tools.RemoveMessageHeaders msg ["Bcc"]) ;;
  (* set the Return-Path and SMTP mfrom *)
  fm <- (if negb (ReturnPath cfg =? "")%string then
           msg <- (if negb (Header_Get env m "Return-Path"
                              =? "<" +++ ReturnPath cfg +++ ">")%string
                   then
                     msg <- try MalformedMessage
                              (tools.RemoveMessageHeaders msg ["Return-Path"]) ;;
                     ret (bytes_of ("Return-Path: <" +++ ReturnPath cfg
                                      +++ ">" +++ crlf) ++ msg)
                   else ret msg) ;;
           ret (ReturnPath cfg, msg)
         else ret (from, msg)) ;;
  let from := fst fm in
  let msg := snd fm in
  (* update message date *)
  msg <- try MalformedMessage
           (tools.UpdateMessageHeader msg "Date" (time_Now env)) ;;
  (* generate unique ID *)
  let uid := shortuuid_New env +++ "@mailpit" in
  (* update Message-Id with unique ID *)
  msg <- try MalformedMessage
           (tools.UpdateMessageHeader msg "Message-Id" ("<" +++ uid +++ ">")) ;;
  err <- send from (To data) msg ;;
  match err with
  | Some e => reply (HttpError DeliveryFailed ("SMTP error: " +++ e))
  | None => reply RespOK
  end.

(** One invocation, from an empty log: the response and the calls made to
    the outbound transport. *)
Definition response (r : Request) : Response :=
  match fst (ReleaseMessage r []) with
  | inl resp => resp
  | inr _ => RespOK
  end.

Definition transport_calls (r : Request) : list SendCall :=
  snd (ReleaseMessage r []).

End Release.

(** ** A small net/mail, for the worked examples

    The handler is verified for every behaviour of its collaborators.  The
    examples below run it against this stand-in for Go's net/mail, which
    treats the plain cases the way net/mail does: an address is an
    addr-spec [local@domain] or a name-addr [phrase <local@domain>], an
    address list is a comma-separated list of addresses or the empty group
    [phrase:;], which net/mail parses into no address and no error. *)

Module Simple.

Fixpoint split_on (c : ascii) (s : bytes) : list bytes :=
  match s with
  | [] => [[]]
  | x :: s' =>
      if Ascii.eqb x c then [] :: split_on c s'
      else match split_on c s' with
           | l :: ls => (x :: l) :: ls
           | [] => [[x]]
           end
  end.

Definition trim (s : bytes) : bytes :=
  rev (skip_ws (rev (skip_ws s))).

Definition between (lo hi n : nat) : bool := (lo <=? n)%nat && (n <=? hi)%nat.

(** The characters of a dot-atom: letters, digits, the dot and the
    punctuation RFC 5322 allows in an atom. *)
Definition dot_atext (c : ascii) : bool :=
  let n := nat_of_ascii c in
  between 97 122 n || between 65 90 n || between 48 57 n
  || existsb (Ascii.eqb c) (bytes_of ".!#$%&'*+-/=?^_`{|}~").

Definition dot_atom (s : bytes) : bool :=
  negb (eqb_bytes s []) && forallb dot_atext s.

Definition addr_spec (a : bytes) : bool :=
  match split_on "@"%char a with
  | [l; d] => dot_atom l && dot_atom d
  | _ => false
  end.

Definition no_angle_addr {A} : result A := Err "mail: no angle-addr".

Definition parse_address (s : bytes) : result mail_Address :=
  let t := trim s in
  match rev t with
  | c :: _ =>
      if Ascii.eqb c ">"%char then
        match split_on "<"%char t with
        | [n; a] =>
            if addr_spec (removelast a)
            then Okay {| Name := string_of_list_ascii (trim n);
                         Address := string_of_list_ascii (removelast a) |}
            else no_angle_addr
        | _ => no_angle_addr
        end
      else if addr_spec t
           then Okay {| Name := ""; Address := string_of_list_ascii t |}
           else no_angle_addr
  | [] => Err "mail: no address"
  end.

Fixpoint sequence {A} (rs : list (result A)) : result (list A) :=
  match rs with
  | [] => Okay []
  | r :: rs' =>
      match r, sequence rs' with
      | Okay a, Okay l => Okay (a :: l)
      | Err e, _ => Err e
      | _, Err e => Err e
      end
  end.

(** [phrase:;] with a one-word phrase. *)
Definition empty_group (t : bytes) : bool :=
  match rev t with
  | c1 :: c2 :: w => Ascii.eqb c1 ";"%char && Ascii.eqb c2 ":"%char && dot_atom w
  | _ => false
  end.

Definition parse_address_list (s : bytes) : result (list mail_Address) :=
  let t := trim s in
  if empty_group t then Okay []
  else sequence (map parse_address (split_on ","%char t)).

Definition ParseAddress (s : string) : result mail_Address :=
  parse_address (bytes_of s).

(** The header of a message: its fields. *)
Definition ReadMessage (msg : bytes) : result (list bytes) :=
  match parse_message msg with
  | Some (fs, _) => Okay fs
  | None => Err "malformed MIME header"
  end.

Definition Get (h : list bytes) (key : string) : string :=
  match find (has_name key) h with
  | Some f => string_of_list_ascii (field_value f)
  | None => ""
  end.

Definition AddressList (h : list bytes) (key : string)
  : result (list mail_Address) :=
  match find (has_name key) h with
  | Some f => parse_address_list (field_value f)
  | None => Err "mail: header not in message"
  end.

(** The regular expression [^.*@example\.com$], on strings without line
    breaks: the string ends in [@example.com]. *)
Definition example_com (s : string) : bool :=
  eqb_bytes (firstn 12 (rev (bytes_of s))) (rev (bytes_of "@example.com")).

(** A store holding one message under the identifier [id1], a transport
    that accepts every message, and fixed outcomes of the clock and of the
    identifier generator. *)
Definition env (stored : bytes) : Env := {|
  mail_Header := list bytes;
  mail_ParseAddress := ParseAddress;
  mail_ReadMessage := ReadMessage;
  Header_AddressList := AddressList;
  Header_Get := Get;
  storage_GetMessageRaw := fun id =>
    if (id =? "id1")%string then Okay stored else Err "sql: no rows in result set";
  smtpd_Send := fun _ _ _ => None;
  time_Now := "Fri, 30 Oct 2026 10:00:00 +0000";
  shortuuid_New := "KwSysDpxcBU9FNhGkn2dCf"
|}.

(** Lines of a message, each ended by CR LF. *)
Fixpoint lines (ls : list string) : bytes :=
  match ls with
  | [] => []
  | l :: ls' => bytes_of l ++ CRLF ++ lines ls'
  end.

Definition request (to : list string) : Request :=
  {| vars_id := "id1"; Body := Okay {| To := to |} |}.

Definition no_policy : SMTPRelayConfig :=
  {| AllowedRecipientsRegexp := None; ReturnPath := "" |}.

End Simple.

(** * Vocabulary of the properties *)

(** ** Lines, fields and strings *)

(** A complete line: no line feed but the one that ends it. *)
Definition line_ok (l : bytes) : Prop :=
  exists b, l = b ++ [LF] /\ ~ In LF b.

(** A well-formed field: a complete first line that is neither blank nor a
    continuation, followed by complete continuation lines. *)
Definition wf_field (f : bytes) : Prop :=
  exists l t, f = l ++ concat t /\ line_ok l /\ is_cont l = false /\
              is_blank l = false /\
              Forall (fun c => line_ok c /\ is_cont c = true) t.

(** The rest of a message: a blank line, then the body. *)
Definition blank_start (rest : bytes) : Prop :=
  exists b r, rest = b ++ r /\ is_blank b = true.

(** A string that fits on one header line: it holds no line feed. *)
Definition one_line (s : string) : Prop := ~ In LF (bytes_of s).

(** ** Occurrences of a token in a message *)

Fixpoint prefix_of (t s : bytes) : bool :=
  match t, s with
  | [], _ => true
  | x :: t', y :: s' => Ascii.eqb x y && prefix_of t' s'
  | _ :: _, [] => false
  end.

(** The bytes [t] occur somewhere in [s]. *)
Fixpoint occurs (t s : bytes) : bool :=
  prefix_of t s ||
  match s with
  | [] => false
  | _ :: s' => occurs t s'
  end.

(** [p] is a contiguous part of [s]. *)
Definition part (p s : bytes) : Prop := exists a b, s = a ++ p ++ b.

(** ** The handler, step by step *)

Section Vocabulary.

Variable env : Env.
Variable cfg : SMTPRelayConfig.

(** A recipient the loop lets through: it parses as one address, and the
    address matches the allowlist when there is one. *)
Definition accepted (to : string) : Prop :=
  exists address, mail_ParseAddress env to = Okay address /\
                  not_allowed cfg address = false.

(** The field written in front of the message for the override. *)
Definition return_path_field : bytes :=
  bytes_of ("Return-Path: <" +++ ReturnPath cfg +++ ">" +++ crlf).

(** The override is configured and the header does not have it yet. *)
Definition rewrites_return_path (m : mail_Header env) : bool :=
  negb (ReturnPath cfg =? "")%string &&
  negb (Header_Get env m "Return-Path" =? "<" +++ ReturnPath cfg +++ ">")%string.

(** The value written into Message-Id: ["<" + uid + ">"] with
    [uid := shortuuid.New() + "@mailpit"]. *)
Definition message_id : string :=
  "<" +++ (shortuuid_New env +++ "@mailpit") +++ ">".

(** The header fields of the released message, from those of the stored
    one. *)
Definition released_fields (m : mail_Header env) (fs : list bytes)
  : list bytes :=
  let fs1 := tools.remove_fields ["Bcc"] fs in
  let fs2 := if rewrites_return_path m
             then return_path_field :: tools.remove_fields ["Return-Path"] fs1
             else fs1 in
  tools.upsert_field "Message-Id" (bytes_of message_id)
    (tools.upsert_field "Date" (bytes_of (time_Now env)) fs2).

(** The names of the fields a release rewrites. *)
Definition rewritten_names (m : mail_Header env) : list string :=
  "Bcc" :: "Date" :: "Message-Id"
  :: (if rewrites_return_path m then ["Return-Path"] else []).

(** A field the release has no reason to touch. *)
Definition kept (m : mail_Header env) (f : bytes) : bool :=
  negb (has_any_name (rewritten_names m) f).

(** The envelope sender, from the parsed header. *)
Definition envelope_sender (m : mail_Header env) (froms : list mail_Address)
  : option string :=
  match froms with
  | [] => None
  | a :: _ =>
      match Header_AddressList env m "Sender" with
      | Okay [] => None
      | Okay (s :: _) =>
          Some (if (ReturnPath cfg =? "")%string then Address s
                else ReturnPath cfg)
      | Err _ =>
          Some (if (ReturnPath cfg =? "")%string then Address a
                else ReturnPath cfg)
      end
  end.

(** Sequencing of fallible steps. *)
Definition and_then {A B} (r : result A) (k : A -> result B) : result B :=
  match r with
  | Okay a => k a
  | Err e => Err e
  end.

(** The message handed to the transport, from the stored one: the
    rewriting steps of the handler, in their order. *)
Definition rewritten (m : mail_Header env) (msg : bytes) : result bytes :=
  and_then (tools.RemoveMessageHeaders msg ["Bcc"]) (fun msg1 =>
  and_then (if rewrites_return_path m
            then and_then (tools.RemoveMessageHeaders msg1 ["Return-Path"])
                   (fun msg2 => Okay (return_path_field ++ msg2))
            else Okay msg1) (fun msg3 =>
  and_then (tools.UpdateMessageHeader msg3 "Date" (time_Now env)) (fun msg4 =>
  tools.UpdateMessageHeader msg4 "Message-Id" message_id))).

End Vocabulary.

(** The failures that end a release before the transport is reached. *)
Definition fails_before_dispatch (resp : Response) : bool :=
  match resp with
  | NotFound => true
  | HttpError InvalidAddress _ => true
  | HttpError RecipientNotAllowed _ => true
  | HttpError EmptyRecipientList _ => true
  | HttpError NoSenderFound _ => true
  | HttpError MalformedMessage _ => true
  | _ => false
  end.

(** The recipients handed to the transport are the address-only forms of
    the recipients of the request. *)
Definition normalized_recipients (env : Env) (tos sent : list string) : Prop :=
  Forall2 (fun to s => exists address,
             mail_ParseAddress env to = Okay address /\ s = Address address)
          tos sent.

(** The From header gives no address: it is absent or does not parse, or
    it parses into an empty list. *)
Definition from_unusable (env : Env) (m : mail_Header env) : Prop :=
  (exists e, Header_AddressList env m "From" = Err e) \/
  Header_AddressList env m "From" = Okay [].

(** The first call in a log of calls. *)
Definition first_call (calls : list SendCall) : SendCall :=
  hd {| send_from := ""; send_to := []; send_msg := [] |} calls.

(** ** Examples: stored messages, policies and requests *)

Module Examples.

Import Simple.

(** A message with a Date, a From, a Bcc and a Subject field. *)
Definition with_bcc : bytes :=
  lines ["Date: Mon, 1 Jan 2024 00:00:00 +0000";
         "From: alice@example.com";
         "Bcc: secret@example.com";
         "Subject: hi";
         "";
         "body"].

(** A message whose Sender field is an empty group. *)
Definition empty_group_sender : bytes :=
  lines ["From: alice@example.com";
         "Sender: undisclosed-recipients:;";
         "";
         "body"].

(** A message with a Sender field and no From field. *)
Definition no_from : bytes :=
  lines ["Subject: hi";
         "Sender: carol@example.com";
         "";
         "body"].

(** A message that already has the Return-Path of the override. *)
Definition with_return_path : bytes :=
  lines ["Return-Path: <bounce@example.com>";
         "From: alice@example.com";
         "Sender: carol@example.com";
         "Message-Id: <original@example.com>";
         "";
         "body"].


Definition allow_example_com : SMTPRelayConfig :=
  {| AllowedRecipientsRegexp := Some example_com; ReturnPath := "" |}.

Definition override : SMTPRelayConfig :=
  {| AllowedRecipientsRegexp := None; ReturnPath := "bounce@example.com" |}.

Definition to_bob : Request := request ["bob@example.com"].

Definition to_named_bob : Request := request ["Bob <bob@example.com>"].

Definition to_eve : Request := request ["eve@attacker.test"].

Definition to_invalid_then_eve : Request :=
  request ["not-an-address"; "eve@attacker.test"].

Definition to_bob_then_eve : Request :=
  request ["bob@example.com"; "eve@attacker.test"].

End Examples.

(** * The other handlers of [server/apiv1/api.go] *)

(** ** The response writer

    What a handler does to its [http.ResponseWriter], call by call. *)
Inductive WriterCall :=
| Header_Set (key value : string)
| Header_Add (key value : string)
| WriteHeader (code : nat)
| Write (b : bytes).

(** The status a client gets: the code of the first [WriteHeader], or 200
    when nothing was written or the body was written first. *)
Fixpoint status_code (calls : list WriterCall) : nat :=
  match calls with
  | [] => 200
  | WriteHeader code :: _ => code
  | Write _ :: _ => 200
  | _ :: calls' => status_code calls'
  end.

(** The body a client gets: what was written, in the order of the
    writes. *)
Fixpoint body_written (calls : list WriterCall) : bytes :=
  match calls with
  | [] => []
  | Write b :: calls' => b ++ body_written calls'
  | _ :: calls' => body_written calls'
  end.

(** The values a header was set or added to, in the order of the calls. *)
Fixpoint header_values (key : string) (calls : list WriterCall) : list string :=
  match calls with
  | [] => []
  | Header_Set k v :: calls' =>
      if (k =? key)%string then v :: header_values key calls'
      else header_values key calls'
  | Header_Add k v :: calls' =>
      if (k =? key)%string then v :: header_values key calls'
      else header_values key calls'
  | _ :: calls' => header_values key calls'
  end.

(** ** The request *)

(** [r.URL.Query().Get], [mux.Vars(r)] and [r.FormValue] give the empty
    string for a name that is not there. *)
Record HttpRequest := {
  URL_Query_Get : string -> string;
  mux_Vars : string -> string;
  FormValue : string -> string;
  r_Body : bytes
}.

(** ** The message store (package [storage])

    The store is a state the handlers step through its functions: a
    function takes the store and gives its result and the store after the
    call; an [error] alone is [Some] of its text, or [None] for [nil]. *)

Module storage.

(** The attachment part [GetAttachmentPart] returns. *)
Record Attachment := {
  FileName : string;
  ContentID : string;
  ContentType : string;
  Content : bytes
}.

(** The statistics [StatsGet] returns, over the type of its counters. *)
Record MailboxStats (float64 : Type) := {
  Total : float64;
  Unread : float64;
  Tags : list string
}.
Arguments Total {float64} _.
Arguments Unread {float64} _.
Arguments Tags {float64} _.

Record Package := {
  Store : Type;
  MessageSummary : Type;
  Message : Type;
  float64 : Type;
  (** the field [HTML] of a message *)
  HTML : Message -> string;
  List : Z -> Z -> Store -> result (list MessageSummary) * Store;
  StatsGet : Store -> MailboxStats float64 * Store;
  Search : string -> string -> Z -> Z -> Store
           -> result (list MessageSummary * Z) * Store;
  DeleteSearch : string -> string -> Store -> option string * Store;
  DeleteAllMessages : Store -> option string * Store;
  DeleteMessages : list string -> Store -> option string * Store;
  MarkAllRead : Store -> option string * Store;
  MarkAllUnread : Store -> option string * Store;
  MarkRead : string -> Store -> option string * Store;
  MarkUnread : string -> Store -> option string * Store;
  SetMessageTags : string -> list string -> Store -> option string * Store;
  LatestID : HttpRequest -> Store -> result string * Store;
  GetMessage : string -> Store -> result Message * Store;
  GetMessageRaw : string -> Store -> result bytes * Store;
  GetAttachmentPart : string -> string -> Store -> result Attachment * Store
}.

End storage.

(** The calls a handler makes to the store. *)
Inductive StorageCall :=
| Call_List (start limit : Z)
| Call_StatsGet
| Call_Search (search tz : string) (start limit : Z)
| Call_DeleteSearch (search tz : string)
| Call_DeleteAllMessages
| Call_DeleteMessages (ids : list string)
| Call_MarkAllRead
| Call_MarkAllUnread
| Call_MarkRead (id : string)
| Call_MarkUnread (id : string)
| Call_SetMessageTags (id : string) (tags : list string)
| Call_LatestID
| Call_GetMessage (id : string)
| Call_GetMessageRaw (id : string)
| Call_GetAttachmentPart (id partID : string).

(** [MessagesSummary], the JSON answer of the listing handlers. *)
Record MessagesSummary (MessageSummary float64 : Type) := {
  ms_Total : float64;
  ms_Unread : float64;
  ms_Count : float64;
  ms_MessagesCount : float64;
  ms_Start : Z;
  ms_Tags : list string;
  ms_Messages : list MessageSummary
}.
Arguments ms_Total {MessageSummary float64} _.
Arguments ms_Unread {MessageSummary float64} _.
Arguments ms_Count {MessageSummary float64} _.
Arguments ms_MessagesCount {MessageSummary float64} _.
Arguments ms_Start {MessageSummary float64} _.
Arguments ms_Tags {MessageSummary float64} _.
Arguments ms_Messages {MessageSummary float64} _.

(** What the handlers call besides the store. *)
Record Services := {
  st : storage.Package;
  strconv_Atoi : string -> result Z;
  strings_TrimSpace : string -> string;
  config_ContentSecurityPolicy : string;
  (** the conversion [float64(n)] of an [int] *)
  float64_of_int : Z -> storage.float64 st;
  json_Marshal_MessagesSummary :
    MessagesSummary (storage.MessageSummary st) (storage.float64 st) -> bytes;
  json_Marshal_Message : storage.Message st -> bytes;
  (** [json.NewDecoder(r.Body).Decode(&data)], for the [data] of
      [DeleteMessages], of [SetReadStatus] and of [SetMessageTags] *)
  json_Decode_IDs : bytes -> result (list string);
  json_Decode_Read_IDs : bytes -> result (bool * list string);
  json_Decode_Tags_IDs : bytes -> result (list string * list string);
  htmlcheck_Response : Type;
  htmlcheck_RunTests : string -> result htmlcheck_Response;
  json_Marshal_htmlcheck : htmlcheck_Response -> bytes
}.

(** ** The handlers' monad: the store, the log of the calls made to it with
    their errors, and the calls made to the response writer; [None] is a
    handler that has returned. *)

Record World (S : storage.Package) := {
  db : storage.Store S;
  storage_calls : list (StorageCall * option string);
  writer_calls : list WriterCall
}.
Arguments db {S} _.
Arguments storage_calls {S} _.
Arguments writer_calls {S} _.

Definition Act (S : storage.Package) (A : Type) : Type :=
  World S -> option A * World S.

Definition act_ret {S A} (a : A) : Act S A := fun s => (Some a, s).

(** [return] *)
Definition act_return {S A} : Act S A := fun s => (None, s).

Definition act_bind {S A B} (m : Act S A) (k : A -> Act S B) : Act S B :=
  fun s =>
    match m s with
    | (Some a, s') => k a s'
    | (None, s') => (None, s')
    end.

Notation "x <~ m ;; k" := (act_bind m (fun x => k))
  (at level 61, m at next level, right associativity).
Notation "m ~;; k" := (act_bind m (fun _ => k))
  (at level 61, right associativity).

(** A call to the response writer. *)
Definition wr {S} (c : WriterCall) : Act S unit :=
  fun s => (Some tt, {| db := db s; storage_calls := storage_calls s;
                        writer_calls := writer_calls s ++ [c] |}).

Definition error_of {A} (r : result A) : option string :=
  match r with
  | Okay _ => None
  | Err e => Some e
  end.

(** A call to a function of the store that returns a value and an error. *)
Definition call {S A} (c : StorageCall)
           (f : storage.Store S -> result A * storage.Store S)
  : Act S (result A) :=
  fun s =>
    let (r, d) := f (db s) in
    (Some r, {| db := d; storage_calls := storage_calls s ++ [(c, error_of r)];
                writer_calls := writer_calls s |}).

(** A call to a function of the store that returns an error only. *)
Definition call_err {S} (c : StorageCall)
           (f : storage.Store S -> option string * storage.Store S)
  : Act S (option string) :=
  fun s =>
    let (e, d) := f (db s) in
    (Some e, {| db := d; storage_calls := storage_calls s ++ [(c, e)];
                writer_calls := writer_calls s |}).

(** A call to a function of the store that returns a value and no error. *)
Definition call_value {S A} (c : StorageCall)
           (f : storage.Store S -> A * storage.Store S) : Act S A :=
  fun s =>
    let (a, d) := f (db s) in
    (Some a, {| db := d; storage_calls := storage_calls s ++ [(c, None)];
                writer_calls := writer_calls s |}).

(** A handler run on a store, with nothing logged yet. *)
Definition serve {S A} (h : Act S A) (d : storage.Store S) : World S :=
  snd (h {| db := d; storage_calls := [];
          writer_calls := [] |}).

Definition dquote : string := String (ascii_of_nat 34) EmptyString.

(** ** The handlers *)

Section Handlers.

Variable sv : Services.

Local Abbreviation S := (st sv).

(** [fourOFour] *)
Definition fourOFour : Act S unit :=
  wr (Header_Set "Referrer-Policy" "no-referrer") ~;;
  wr (Header_Set "Content-Security-Policy" (config_ContentSecurityPolicy sv)) ~;;
  wr (WriteHeader 404) ~;;
  wr (Header_Set "Content-Type" "text/plain") ~;;
  wr (Write (bytes_of "404 page not found")).

(** [httpError] *)
Definition httpError (msg : string) : Act S unit :=
  wr (Header_Set "Referrer-Policy" "no-referrer") ~;;
  wr (Header_Set "Content-Security-Policy" (config_ContentSecurityPolicy sv)) ~;;
  wr (WriteHeader 400) ~;;
  wr (Header_Set "Content-Type" "text/plain") ~;;
  wr (Write (bytes_of msg)).

(** [getStartLimit] *)
Definition getStartLimit (req : HttpRequest) : Z * Z :=
  let start := 0%Z in
  let limit := 50%Z in
  let s := URL_Query_Get req "start" in
  let start := match strconv_Atoi sv s with
               | Okay n => if (0 <? n)%Z then n else start
               | Err _ => start
               end in
  let l := URL_Query_Get req "limit" in
  let limit := match strconv_Atoi sv l with
               | Okay n => if (0 <? n)%Z then n else limit
               | Err _ => limit
               end in
  (start, limit).

(** [GetMessages] *)
Definition GetMessages (r : HttpRequest) : Act S unit :=
  let (start, limit) := getStartLimit r in
  listed <~ call (Call_List start limit) (storage.List S start limit) ;;
  match listed with
  | Err e => httpError e ~;; act_return
  | Okay messages =>
      stats <~ call_value Call_StatsGet (storage.StatsGet S) ;;
      let res :=
        {| ms_Start := start;
           ms_Messages := messages;
           ms_Count := float64_of_int sv (Z.of_nat (length messages));
           ms_Total := storage.Total stats;
           ms_Unread := storage.Unread stats;
           ms_Tags := storage.Tags stats;
           ms_MessagesCount := storage.Total stats |} in
      let bytes := json_Marshal_MessagesSummary sv res in
      wr (Header_Add "Content-Type" "application/json") ~;;
      wr (Write bytes)
  end.

(** [Search] *)
Definition Search (r : HttpRequest) : Act S unit :=
  let search := strings_TrimSpace sv (URL_Query_Get r "query") in
  if (search =? "")%string then
    httpError "Error: no search query" ~;; act_return
  else
    let (start, limit) := getStartLimit r in
    let tz := URL_Query_Get r "tz" in
    found <~ call (Call_Search search tz start limit)
               (storage.Search S search tz start limit) ;;
    match found with
    | Err e => httpError e ~;; act_return
    | Okay (messages, results) =>
        stats <~ call_value Call_StatsGet (storage.StatsGet S) ;;
        let res :=
          {| ms_Start := start;
             ms_Messages := messages;
             ms_Count := float64_of_int sv (Z.of_nat (length messages));
             ms_Total := storage.Total stats;
             ms_MessagesCount := float64_of_int sv results;
             ms_Unread := storage.Unread stats;
             ms_Tags := storage.Tags stats |} in
        let bytes := json_Marshal_MessagesSummary sv res in
        wr (Header_Add "Content-Type" "application/json") ~;;
        wr (Write bytes)
    end.

(** [DeleteSearch] *)
Definition DeleteSearch (r : HttpRequest) : Act S unit :=
  let search := strings_TrimSpace sv (URL_Query_Get r "query") in
  if (search =? "")%string then
    httpError "Error: no search query" ~;; act_return
  else
    let tz := URL_Query_Get r "tz" in
    err <~ call_err (Call_DeleteSearch search tz)
             (storage.DeleteSearch S search tz) ;;
    match err with
    | Some e => httpError e ~;; act_return
    | None =>
        wr (Header_Add "Content-Type" "text/plain") ~;;
        wr (Write (bytes_of "ok"))
    end.

(** The block every handler of one message starts with:
    [if id == "latest" { id, err = storage.LatestID(r); ... }]. *)
Definition latest (r : HttpRequest) (id : string) : Act S string :=
  if (id =? "latest")%string then
    found <~ call Call_LatestID (storage.LatestID S r) ;;
    match found with
    | Err e =>
        wr (WriteHeader 404) ~;; wr (Write (bytes_of e)) ~;; act_return
    | Okay id' => act_ret id'
    end
  else act_ret id.

(** [GetMessage] *)
Definition GetMessage (r : HttpRequest) : Act S unit :=
  let id := mux_Vars r "id" in
  id <~ latest r id ;;
  got <~ call (Call_GetMessage id) (storage.GetMessage S id) ;;
  match got with
  | Err _ => fourOFour ~;; act_return
  | Okay msg =>
      let bytes := json_Marshal_Message sv msg in
      wr (Header_Add "Content-Type" "application/json") ~;;
      wr (Write bytes)
  end.

(** [DownloadAttachment] *)
Definition DownloadAttachment (r : HttpRequest) : Act S unit :=
  let id := mux_Vars r "id" in
  let partID := mux_Vars r "partID" in
  got <~ call (Call_GetAttachmentPart id partID)
           (storage.GetAttachmentPart S id partID) ;;
  match got with
  | Err _ => fourOFour ~;; act_return
  | Okay a =>
      let fileName := storage.FileName a in
      let fileName := if (fileName =? "")%string then storage.ContentID a
                      else fileName in
      wr (Header_Add "Content-Type" (storage.ContentType a)) ~;;
      wr (Header_Set "Content-Disposition"
            ("filename=" +++ dquote +++ fileName +++ dquote)) ~;;
      wr (Write (storage.Content a))
  end.

(** [DownloadRaw] *)
Definition DownloadRaw (r : HttpRequest) : Act S unit :=
  let id := mux_Vars r "id" in
  let dl := FormValue r "dl" in
  id <~ latest r id ;;
  got <~ call (Call_GetMessageRaw id) (storage.GetMessageRaw S id) ;;
  match got with
  | Err _ => fourOFour ~;; act_return
  | Okay data =>
      wr (Header_Set "Content-Type" "text/plain; charset=utf-8") ~;;
      (if (dl =? "1")%string then
         wr (Header_Set "Content-Disposition"
               ("attachment; filename=" +++ dquote +++ id +++ ".eml"
                  +++ dquote))
       else act_ret tt) ~;;
      wr (Write data)
  end.

(** [DeleteMessages] *)
Definition DeleteMessages (r : HttpRequest) : Act S unit :=
  let data := json_Decode_IDs sv (r_Body r) in
  (* err != nil || len(data.IDs) == 0 *)
  (if match data with
      | Err _ => true
      | Okay ids => (length ids =? 0)%nat
      end
   then
     err <~ call_err Call_DeleteAllMessages (storage.DeleteAllMessages S) ;;
     match err with
     | Some e => httpError e ~;; act_return
     | None => act_ret tt
     end
   else
     let ids := match data with Okay ids => ids | Err _ => [] end in
     err <~ call_err (Call_DeleteMessages ids) (storage.DeleteMessages S ids) ;;
     match err with
     | Some e => httpError e ~;; act_return
     | None => act_ret tt
     end) ~;;
  wr (Header_Add "Content-Type" "application/plain") ~;;
  wr (Write (bytes_of "ok")).

(** The loops [for _, id := range ids] of [SetReadStatus] and of
    [SetMessageTags]: one call of the store for each identifier, and
    [httpError] and [return] at the first error. *)
Fixpoint for_each_id (c : string -> StorageCall)
         (f : string -> storage.Store S -> option string * storage.Store S)
         (ids : list string) : Act S unit :=
  match ids with
  | [] => act_ret tt
  | id :: ids' =>
      err <~ call_err (c id) (f id) ;;
      match err with
      | Some e => httpError e ~;; act_return
      | None => for_each_id c f ids'
      end
  end.

(** [SetReadStatus] *)
Definition SetReadStatus (r : HttpRequest) : Act S unit :=
  match json_Decode_Read_IDs sv (r_Body r) with
  | Err e => httpError e ~;; act_return
  | Okay (read, ids) =>
      (if (length ids =? 0)%nat then
         if read then
           err <~ call_err Call_MarkAllRead (storage.MarkAllRead S) ;;
           match err with
           | Some e => httpError e ~;; act_return
           | None => act_ret tt
           end
         else
           err <~ call_err Call_MarkAllUnread (storage.MarkAllUnread S) ;;
           match err with
           | Some e => httpError e ~;; act_return
           | None => act_ret tt
           end
       else
         if read then for_each_id Call_MarkRead (storage.MarkRead S) ids
         else for_each_id Call_MarkUnread (storage.MarkUnread S) ids) ~;;
      wr (Header_Add "Content-Type" "text/plain") ~;;
      wr (Write (bytes_of "ok"))
  end.

(** [SetMessageTags] *)
Definition SetMessageTags (r : HttpRequest) : Act S unit :=
  match json_Decode_Tags_IDs sv (r_Body r) with
  | Err e => httpError e ~;; act_return
  | Okay (tags, ids) =>
      (if (0 <? length ids)%nat then
         for_each_id (fun id => Call_SetMessageTags id tags)
           (fun id => storage.SetMessageTags S id tags) ids
       else act_ret tt) ~;;
      wr (Header_Add "Content-Type" "text/plain") ~;;
      wr (Write (bytes_of "ok"))
  end.

(** [HTMLCheck] *)
Definition HTMLCheck (r : HttpRequest) : Act S unit :=
  let id := mux_Vars r "id" in
  id <~ latest r id ;;
  got <~ call (Call_GetMessage id) (storage.GetMessage S id) ;;
  match got with
  | Err _ => fourOFour ~;; act_return
  | Okay msg =>
      if (storage.HTML S msg =? "")%string then
        httpError "message does not contain HTML" ~;; act_return
      else
        match htmlcheck_RunTests sv (storage.HTML S msg) with
        | Err e => httpError e ~;; act_return
        | Okay checks =>
            let bytes := json_Marshal_htmlcheck sv checks in
            wr (Header_Add "Content-Type" "application/json") ~;;
            wr (Write bytes)
        end
  end.

End Handlers.

(** ** [CheckDomains] *)

(** What [json.Unmarshal] puts into an [interface{}]: [nil], a boolean, a
    number (kept as its text), a string, a slice or a
    [map[string]interface{}]. *)
#[warnings="-register-all"]
Inductive JSON :=
| JNull
| JBool (b : bool)
| JNumber (text : string)
| JString (s : string)
| JArray (l : list JSON)
| JObject (m : list (string * JSON)).

(** A Go map with string keys, as the list of its entries: [m[key]] is the
    first entry of the key, [m[key] = value] replaces the entries of the
    key. *)
Definition map_get {V} (key : string) (m : list (string * V)) : option V :=
  match find (fun kv => (fst kv =? key)%string) m with
  | Some kv => Some (snd kv)
  | None => None
  end.

Definition map_set {V} (key : string) (value : V) (m : list (string * V))
  : list (string * V) :=
  (key, value) :: filter (fun kv => negb (fst kv =? key)%string) m.

(** [result[key]] on a [map[string]interface{}]: [nil] for a key that is
    not there. *)
Definition index (result : list (string * JSON)) (key : string) : JSON :=
  match map_get key result with
  | Some v => v
  | None => JNull
  end.

(** [v == "clean"] on an [interface{}]. *)
Definition is_clean (v : JSON) : bool :=
  match v with
  | JString s => (s =? "clean")%string
  | _ => false
  end.

(** The body of the loop over [LastAnalysisResults]: a verdict that is an
    object and whose [result] is not [clean] is kept under its key. *)
Definition filter_step (filteredResults : list (string * JSON))
           (kv : string * JSON) : list (string * JSON) :=
  let (key, value) := kv in
  match value with
  | JObject result =>
      if negb (is_clean (index result "result"))
      then map_set key value filteredResults
      else filteredResults
  | _ => filteredResults
  end.

(** The loop over [LastAnalysisResults], from an empty [filteredResults]. *)
Definition filter_unclean (lastAnalysisResults : list (string * JSON))
  : list (string * JSON) :=
  fold_left filter_step lastAnalysisResults [].

(** What [CheckDomains] calls: net/http, io/ioutil, os and encoding/json.
    [Net] is the state of the network, which a request steps. *)
Record HttpClient := {
  Net : Type;
  http_Request : Type;
  http_Response : Type;
  os_LookupEnv : string -> string;
  http_NewRequest : string -> result http_Request;
  Request_Header_Set : http_Request -> string -> string -> http_Request;
  Client_Do : http_Request -> Net -> result http_Response * Net;
  ioutil_ReadAll : http_Response -> result bytes;
  Response_StatusCode : http_Response -> nat;
  json_Unmarshal_VirusTotalResponse : bytes -> result (list (string * JSON));
  json_Decode_Domains : bytes -> result (list string);
  json_Encode_DomainsCheckResponse :
    list (string * list (string * JSON)) -> result bytes
}.

Section CheckDomains.

Variable sv : Services.
Variable hc : HttpClient.

Local Abbreviation S := (st sv).

(** The body of the loop over the domains: the filtered verdicts of one
    domain, or the error that is put aside for it. *)
Definition check_domain (apiKey domain : string) (n : Net hc)
  : result (list (string * JSON)) * Net hc :=
  let url := "https://www.virustotal.com/api/v3/domains/" +++ domain in
  match http_NewRequest hc url with
  | Err e =>
      (Err ("error creating request for domain " +++ domain +++ ": " +++ e), n)
  | Okay req =>
      let req := Request_Header_Set hc req "x-apikey" apiKey in
      match Client_Do hc req n with
      | (Err e, n') => (Err e, n')
      | (Okay resp, n') =>
          match ioutil_ReadAll hc resp with
          | Err e => (Err e, n')
          | Okay body =>
              if negb (Response_StatusCode hc resp =? 200)%nat
              then (Err (string_of_list_ascii body), n')
              else
                match json_Unmarshal_VirusTotalResponse hc body with
                | Err e => (Err e, n')
                | Okay lastAnalysisResults =>
                    (Okay (filter_unclean lastAnalysisResults), n')
                end
          end
      end
  end.

(** The loop [for _, domain := range domains]: the results, the errors put
    aside and the network after it. *)
Fixpoint check_domains (apiKey : string) (domains : list string)
         (results : list (string * list (string * JSON)))
         (errors : list string) (n : Net hc)
  : list (string * list (string * JSON)) * list string * Net hc :=
  match domains with
  | [] => (results, errors, n)
  | domain :: domains' =>
      match check_domain apiKey domain n with
      | (Okay filteredResults, n') =>
          check_domains apiKey domains'
            (map_set domain filteredResults results) errors n'
      | (Err e, n') =>
          check_domains apiKey domains' results (errors ++ [e]) n'
      end
  end.

(** [CheckDomains]: the network after the handler, the lines it prints,
    and what it does to the response writer. *)
Definition CheckDomains (r : HttpRequest) (n : Net hc)
  : Net hc * list string * Act S unit :=
  match json_Decode_Domains hc (r_Body r) with
  | Err e => (n, [], httpError sv e ~;; act_return)
  | Okay domains =>
      let apiKey := os_LookupEnv hc "VIRUSTOTAL_API_KEY" in
      let '(results, errors, n') := check_domains apiKey domains [] [] n in
      (n', map (fun e => "Error: " +++ e) errors,
       wr (Header_Set "Content-Type" "application/json") ~;;
       match json_Encode_DomainsCheckResponse hc results with
       | Err e => httpError sv e ~;; act_return
       | Okay b => wr (Write b)
       end)
  end.

End CheckDomains.

(** ** Vocabulary of the handlers' properties *)

(** A verdict [CheckDomains] keeps: an object whose [result] is not the
    string [clean]. *)
Definition unclean (v : JSON) : bool :=
  match v with
  | JObject result => negb (is_clean (index result "result"))
  | _ => false
  end.

(** The calls made to the store are the expected ones, in their order, up
    to the first that fails: every call made but the last succeeded; either
    all the expected calls were made and succeeded and the answer is 200
    with the body [ok], or the last call made failed and the answer is 400
    with the text of its error. *)
Definition stops_at_first_error (expected : list StorageCall)
           (calls : list (StorageCall * option string))
           (written : list WriterCall) : Prop :=
  exists n,
    (n <= length expected)%nat /\
    map fst calls = firstn n expected /\
    Forall (fun x => snd x = None) (removelast calls) /\
    ((n = length expected /\ Forall (fun x => snd x = None) calls /\
      status_code written = 200 /\ body_written written = bytes_of "ok") \/
     (exists e, last (map snd calls) None = Some e /\
                status_code written = 400 /\
                body_written written = bytes_of e)).

(** ** A store in memory, for the worked examples *)

Module Memory.

Record Stored := {
  s_id : string;
  s_read : bool;
  s_tags : list string;
  s_raw : bytes;
  s_html : string
}.

Definition Store := list Stored.

Definition has (id : string) (d : Store) : bool :=
  existsb (fun m => (s_id m =? id)%string) d.

Definition not_found {A} : result A := Err "message not found".

Definition update (id : string) (f : Stored -> Stored) (d : Store)
  : option string * Store :=
  if has id d
  then (None, map (fun m => if (s_id m =? id)%string then f m else m) d)
  else (Some "message not found", d).

Definition set_read (b : bool) (m : Stored) : Stored :=
  {| s_id := s_id m; s_read := b; s_tags := s_tags m; s_raw := s_raw m;
     s_html := s_html m |}.

Definition set_tags (tags : list string) (m : Stored) : Stored :=
  {| s_id := s_id m; s_read := s_read m; s_tags := tags; s_raw := s_raw m;
     s_html := s_html m |}.

Definition package : storage.Package := {|
  storage.Store := Store;
  storage.MessageSummary := string;
  storage.Message := Stored;
  storage.float64 := Z;
  storage.HTML := s_html;
  storage.List := fun start limit d =>
    (Okay (firstn (Z.to_nat limit) (skipn (Z.to_nat start) (map s_id d))), d);
  storage.StatsGet := fun d =>
    ({| storage.Total := Z.of_nat (length d);
        storage.Unread :=
          Z.of_nat (length (filter (fun m => negb (s_read m)) d));
        storage.Tags := flat_map s_tags d |}, d);
  storage.Search := fun search _ start limit d =>
    let found := filter (fun id => (id =? search)%string) (map s_id d) in
    (Okay (firstn (Z.to_nat limit) (skipn (Z.to_nat start) found),
           Z.of_nat (length found)), d);
  storage.DeleteSearch := fun search _ d =>
    (None, filter (fun m => negb (s_id m =? search)%string) d);
  storage.DeleteAllMessages := fun _ => (None, []);
  storage.DeleteMessages := fun ids d =>
    (None, filter (fun m => negb (existsb (String.eqb (s_id m)) ids)) d);
  storage.MarkAllRead := fun d => (None, map (set_read true) d);
  storage.MarkAllUnread := fun d => (None, map (set_read false) d);
  storage.MarkRead := fun id => update id (set_read true);
  storage.MarkUnread := fun id => update id (set_read false);
  storage.SetMessageTags := fun id tags => update id (set_tags tags);
  storage.LatestID := fun _ d =>
    match d with
    | m :: _ => (Okay (s_id m), d)
    | [] => (Err "Message not found", d)
    end;
  storage.GetMessage := fun id d =>
    match find (fun m => (s_id m =? id)%string) d with
    | Some m => (Okay m, map (fun m => if (s_id m =? id)%string
                                      then set_read true m else m) d)
    | None => (not_found, d)
    end;
  storage.GetMessageRaw := fun id d =>
    match find (fun m => (s_id m =? id)%string) d with
    | Some m => (Okay (s_raw m), d)
    | None => (not_found, d)
    end;
  storage.GetAttachmentPart := fun id partID d =>
    if has id d && (partID =? "2")%string
    then (Okay {| storage.FileName := "";
                  storage.ContentID := "logo";
                  storage.ContentType := "image/png";
                  storage.Content := bytes_of "PNG" |}, d)
    else (not_found, d)
|}.

(** Decimal numbers without a sign, the way [strconv.Atoi] reads them. *)
Fixpoint digits (s : bytes) (acc : Z) : option Z :=
  match s with
  | [] => Some acc
  | c :: s' =>
      let n := nat_of_ascii c in
      if ((48 <=? n)%nat && (n <=? 57)%nat)%bool
      then digits s' (10 * acc + Z.of_nat (n - 48))%Z
      else None
  end.

Definition Atoi (s : string) : result Z :=
  match bytes_of s with
  | [] => Err "strconv.Atoi: parsing: invalid syntax"
  | c :: s' =>
      let parsed := if Ascii.eqb c "-"%char
                    then option_map Z.opp (match s' with
                                           | [] => None
                                           | _ => digits s' 0%Z
                                           end)
                    else digits (c :: s') 0%Z in
      match parsed with
      | Some n => Okay n
      | None => Err "strconv.Atoi: parsing: invalid syntax"
      end
  end.

(** The body of the examples is the list of identifiers, one per line; a
    body that starts with [{] does not decode. *)
Definition ids_of (body : bytes) : result (list string) :=
  match body with
  | c :: _ =>
      if Ascii.eqb c "{"%char then Err "json: cannot unmarshal"
      else Okay (map string_of_list_ascii
                   (map (fun l => removelast l) (split_lines body)))
  | [] => Okay []
  end.

Definition services : Services := {|
  st := package;
  strconv_Atoi := Atoi;
  strings_TrimSpace := fun s =>
    string_of_list_ascii (Simple.trim (bytes_of s));
  config_ContentSecurityPolicy := "default-src 'self'";
  float64_of_int := fun n => n;
  json_Marshal_MessagesSummary := fun m =>
    bytes_of (String.concat "," (ms_Messages m));
  json_Marshal_Message := fun m => bytes_of (s_id m);
  json_Decode_IDs := ids_of;
  json_Decode_Read_IDs := fun body =>
    match ids_of body with
    | Okay ids => Okay (true, ids)
    | Err e => Err e
    end;
  json_Decode_Tags_IDs := fun body =>
    match ids_of body with
    | Okay ids => Okay (["urgent"], ids)
    | Err e => Err e
    end;
  htmlcheck_Response := nat;
  htmlcheck_RunTests := fun html => Okay (String.length html);
  json_Marshal_htmlcheck := fun n => bytes_of (if (n =? 0)%nat then "0" else "n")
|}.

Definition message (id : string) (html : string) : Stored :=
  {| s_id := id; s_read := false; s_tags := []; s_raw := bytes_of id;
     s_html := html |}.

(** Two messages, the newer first. *)
Definition mailbox : Store := [message "m2" "<p>hi</p>"; message "m1" ""].

Definition request (id : string) (query : list (string * string))
           (body : list string) : HttpRequest :=
  let get := fun key =>
    match find (fun kv => (fst kv =? key)%string) query with
    | Some kv => snd kv
    | None => ""
    end in
  {| URL_Query_Get := get;
     mux_Vars := fun key => if (key =? "id")%string then id
                            else if (key =? "partID")%string then "2" else "";
     FormValue := get;
     r_Body := concat (map (fun l => bytes_of l ++ [LF]) body) |}.

End Memory.

(** * Properties *)

(** ** Bytes *)

Lemma eqb_bytes_eq (a b : bytes) : eqb_bytes a b = true <-> a = b.
Proof.
  revert b; induction a as [|x a IH]; intros [|y b]; simpl;
    try (split; [discriminate | congruence]); try tauto.
  rewrite andb_true_iff, Ascii.eqb_eq, IH.
  split; [intros [-> ->]; reflexivity | intros E; inversion E; auto].
Qed.

Lemma eqb_bytes_refl (a : bytes) : eqb_bytes a a = true.
Proof. apply eqb_bytes_eq; reflexivity. Qed.

Lemma eq_fold_refl (a : bytes) : eq_fold a a = true.
Proof. apply eqb_bytes_refl. Qed.

Lemma bytes_of_append (a b : string) :
  bytes_of (a +++ b) = bytes_of a ++ bytes_of b.
Proof.
  unfold bytes_of; induction a as [|c a IH]; simpl; [reflexivity|].
  now rewrite IH.
Qed.


Lemma lower_LF (c : ascii) : lower c = LF -> c = LF.
Proof.
  unfold lower.
  destruct ((65 <=? nat_of_ascii c)%nat && (nat_of_ascii c <=? 90)%nat) eqn:E;
    [|auto].
  apply andb_true_iff in E as [E1 E2].
  apply Nat.leb_le in E1; apply Nat.leb_le in E2.
  intros H. apply (f_equal nat_of_ascii) in H.
  rewrite nat_ascii_embedding in H by lia.
  change (nat_of_ascii LF) with 10 in H. lia.
Qed.

Lemma lower_no_LF (a b : bytes) :
  map lower a = map lower b -> ~ In LF b -> ~ In LF a.
Proof.
  revert b; induction a as [|x a IH]; intros [|y b] E Hb; simpl in *;
    try discriminate; auto.
  inversion E as [[E1 E2]].
  intros [->|Hin].
  - apply Hb; left. apply lower_LF. rewrite <- E1. reflexivity.
  - apply (IH b); auto.
Qed.

(** ** Lines *)

Lemma line_ok_cons (c : ascii) (l : bytes) :
  c <> LF -> line_ok l -> line_ok (c :: l).
Proof.
  intros Hc (b & -> & Hb). exists (c :: b); split; [reflexivity|].
  intros [E|E]; [congruence | auto].
Qed.

Lemma line_ok_nonempty (l : bytes) : line_ok l -> l <> [].
Proof. intros (b & -> & _). destruct b; discriminate. Qed.

Lemma concat_split_lines (s : bytes) : concat (split_lines s) = s.
Proof.
  induction s as [|c s IH]; simpl; [reflexivity|].
  destruct (Ascii.eqb c LF).
  - simpl. now rewrite IH.
  - destruct (split_lines s) as [|l ls]; simpl in *.
    + now rewrite <- IH.
    + now rewrite <- IH.
Qed.

Lemma split_lines_nil (s : bytes) : split_lines s = [] -> s = [].
Proof.
  intros H. rewrite <- (concat_split_lines s), H. reflexivity.
Qed.

(** The first line of a byte sequence; it is complete when more follows. *)
Lemma split_lines_cons (s l : bytes) (ls : list bytes) :
  split_lines s = l :: ls ->
  exists s', s = l ++ s' /\ split_lines s' = ls /\ l <> [] /\
             (ls <> [] -> line_ok l).
Proof.
  revert l ls; induction s as [|c s IH]; intros l ls; simpl; [discriminate|].
  destruct (Ascii.eqb c LF) eqn:Ec.
  - intros E; inversion E; subst. apply Ascii.eqb_eq in Ec; subst c.
    exists s; repeat split; try discriminate.
    intros _. exists []; split; auto.
  - destruct (split_lines s) as [|l0 ls0] eqn:Es.
    + intros E; inversion E; subst.
      apply split_lines_nil in Es; subst s.
      exists []; repeat split; try discriminate.
      intros H; exfalso; apply H; reflexivity.
    + intros E; inversion E; subst.
      destruct (IH l0 ls eq_refl) as (s' & -> & Hs' & Hne & Hok).
      exists s'; repeat split; auto; try discriminate.
      intros Hls. apply line_ok_cons; auto.
      apply Ascii.eqb_neq; exact Ec.
Qed.

(** A complete line in front of a byte sequence is its first line. *)
Lemma split_lines_line (l s : bytes) :
  line_ok l -> split_lines (l ++ s) = l :: split_lines s.
Proof.
  intros (b & -> & Hb). induction b as [|c b IH]; simpl.
  - reflexivity.
  - destruct (Ascii.eqb c LF) eqn:Ec.
    + apply Ascii.eqb_eq in Ec. exfalso; apply Hb; left; auto.
    + simpl in IH. rewrite IH; [reflexivity|].
      intros Hin; apply Hb; right; exact Hin.
Qed.

Lemma split_lines_concat (hl : list bytes) (s : bytes) :
  Forall line_ok hl -> split_lines (concat hl ++ s) = hl ++ split_lines s.
Proof.
  induction 1 as [|l hl Hl _ IH]; simpl; [reflexivity|].
  rewrite <- app_assoc, split_lines_line, IH; auto.
Qed.

(** ** Header fields *)

Lemma is_blank_line_ok (b : bytes) : is_blank b = true -> line_ok b.
Proof.
  unfold is_blank. rewrite orb_true_iff, !eqb_bytes_eq.
  intros [->| ->].
  - exists []; split; auto.
  - exists [CR]; split; [reflexivity|].
    intros [E|[]]; discriminate.
Qed.

Lemma is_cont_not_blank (l : bytes) : is_cont l = true -> is_blank l = false.
Proof.
  destruct l as [|c l]; simpl; [discriminate|].
  rewrite orb_true_iff, !Ascii.eqb_eq.
  intros [->| ->]; reflexivity.
Qed.

Lemma is_cont_app (l s : bytes) : l <> [] -> is_cont (l ++ s) = is_cont l.
Proof. destruct l; [congruence | reflexivity]. Qed.

(** A line and the continuation lines after it make one field. *)
Lemma group_fields_field (l : bytes) (t hl : list bytes) :
  Forall (fun c => line_ok c /\ is_cont c = true) t ->
  starts_cont hl = false ->
  Forall line_ok hl ->
  group_fields (l :: t ++ hl) = (l ++ concat t) :: group_fields hl.
Proof.
  intros Ht Hs Hhl; revert l.
  induction Ht as [|c t [Hc1 Hc2] _ IH]; intros l.
  - simpl. rewrite app_nil_r.
    destruct hl as [|l1 hl1]; [reflexivity|].
    change (group_fields (l1 :: hl1)) with
      (match group_fields hl1 with
       | f :: fs => if is_cont f then (l1 ++ f) :: fs else l1 :: f :: fs
       | [] => [l1]
       end).
    simpl in Hs. inversion Hhl as [|? ? Hl1 _]; subst.
    apply line_ok_nonempty in Hl1.
    destruct (group_fields hl1) as [|f fs]; [rewrite Hs; reflexivity|].
    destruct (is_cont f) eqn:Ef.
    + rewrite is_cont_app, Hs by exact Hl1. reflexivity.
    + rewrite Hs. reflexivity.
  - change (group_fields (l :: (c :: t) ++ hl)) with
      (match group_fields (c :: t ++ hl) with
       | f :: fs => if is_cont f then (l ++ f) :: fs else l :: f :: fs
       | [] => [l]
       end).
    rewrite IH.
    rewrite is_cont_app, Hc2 by (apply line_ok_nonempty; exact Hc1).
    simpl. reflexivity.
Qed.

(** Well-formed fields are the groups of their own lines. *)
Lemma wf_fields_lines (fs : list bytes) :
  Forall wf_field fs ->
  exists hl, concat hl = concat fs /\ Forall line_ok hl /\
             Forall (fun l => is_blank l = false) hl /\
             starts_cont hl = false /\ group_fields hl = fs.
Proof.
  induction 1 as [|f fs (l & t & -> & Hl & Hc & Hb & Ht) _
                    (hl & E & Hok & Hnb & Hs & Hg)].
  - exists []; repeat split; constructor.
  - exists (l :: t ++ hl); repeat split.
    + simpl. rewrite concat_app, E, app_assoc. reflexivity.
    + constructor; [exact Hl|]. apply Forall_app; split; [|exact Hok].
      eapply Forall_impl; [|exact Ht]. intros a [Ha _]; exact Ha.
    + constructor; [exact Hb|]. apply Forall_app; split; [|exact Hnb].
      eapply Forall_impl; [|exact Ht].
      intros a [_ Ha]; apply is_cont_not_blank; exact Ha.
    + exact Hc.
    + rewrite group_fields_field, Hg; auto.
Qed.

Lemma break_blank_app (hl : list bytes) (b : bytes) (ls : list bytes) :
  Forall (fun l => is_blank l = false) hl -> is_blank b = true ->
  break_blank (hl ++ b :: ls) = Some (hl, b :: ls).
Proof.
  intros Hnb Hb; induction Hnb as [|l hl Hl _ IH]; simpl.
  - rewrite Hb; reflexivity.
  - rewrite Hl, IH; reflexivity.
Qed.

(** Parsing what was printed gives the fields and the rest back. *)
Lemma parse_unparse (fs : list bytes) (rest : bytes) :
  Forall wf_field fs -> blank_start rest ->
  parse_message (unparse fs rest) = Some (fs, rest).
Proof.
  intros Hfs (b & r & -> & Hb).
  destruct (wf_fields_lines fs Hfs) as (hl & E & Hok & Hnb & Hs & Hg).
  unfold parse_message, unparse.
  rewrite <- E, split_lines_concat by exact Hok.
  rewrite split_lines_line by (apply is_blank_line_ok; exact Hb).
  rewrite break_blank_app by assumption.
  rewrite Hs, Hg. simpl. rewrite concat_split_lines. reflexivity.
Qed.

Lemma break_blank_split_lines (ls : list bytes) :
  forall (s : bytes) (h r : list bytes),
    split_lines s = ls -> break_blank ls = Some (h, r) ->
    Forall line_ok h /\ Forall (fun l => is_blank l = false) h /\
    s = concat h ++ concat r /\
    exists b r', r = b :: r' /\ is_blank b = true.
Proof.
  induction ls as [|l ls IH]; intros s h r Hs; simpl; [discriminate|].
  destruct (split_lines_cons s l ls Hs) as (s' & -> & Hs' & _ & Hok).
  destruct (is_blank l) eqn:Hb.
  - intros E; inversion E; subst h r.
    repeat split; try constructor.
    + simpl. rewrite <- (concat_split_lines (l ++ s')), Hs. reflexivity.
    + exists l, ls; auto.
  - destruct (break_blank ls) as [[h' r']|] eqn:Hbr; [|discriminate].
    intros E; inversion E; subst h r.
    destruct (IH s' h' r' Hs' eq_refl) as (H1 & H2 & H3 & H4).
    repeat split; auto.
    + constructor; [|exact H1]. apply Hok.
      intros ->; discriminate.
    + simpl. rewrite <- app_assoc, <- H3. reflexivity.
Qed.

(** The groups of complete, non-blank lines are well-formed fields, but
    possibly the first one, which starts the way the first line does. *)
Lemma group_fields_wf (hl : list bytes) :
  Forall line_ok hl -> Forall (fun l => is_blank l = false) hl ->
  match group_fields hl with
  | [] => hl = []
  | f :: fs =>
      (exists l t, f = l ++ concat t /\ line_ok l /\
                   is_cont l = starts_cont hl /\ is_blank l = false /\
                   Forall (fun c => line_ok c /\ is_cont c = true) t) /\
      Forall wf_field fs
  end.
Proof.
  induction hl as [|l hl IH]; intros Hok Hnb; [reflexivity|].
  inversion Hok as [|? ? Hl Hok']; inversion Hnb as [|? ? Hb Hnb']; subst.
  specialize (IH Hok' Hnb'). simpl.
  destruct (group_fields hl) as [|f fs].
  - subst hl. split; [|constructor].
    exists l, []; simpl; rewrite app_nil_r; repeat split; auto.
  - destruct IH as ((l' & t' & -> & Hl' & Hc' & Hb' & Ht') & Hfs).
    rewrite is_cont_app by (apply line_ok_nonempty; exact Hl').
    destruct (is_cont l') eqn:Ec.
    + split; [|exact Hfs].
      exists l, (l' :: t'); repeat split; auto.
    + split.
      * exists l, []; simpl; rewrite app_nil_r; repeat split; auto.
      * constructor; [|exact Hfs].
        exists l', t'; repeat split; auto.
Qed.

(** What parsing returns: well-formed fields and a rest that print back to
    the message. *)
Lemma parse_message_inv (msg : bytes) (fs : list bytes) (rest : bytes) :
  parse_message msg = Some (fs, rest) ->
  Forall wf_field fs /\ blank_start rest /\ unparse fs rest = msg.
Proof.
  unfold parse_message.
  destruct (break_blank (split_lines msg)) as [[h r]|] eqn:Hbr; [|discriminate].
  destruct (starts_cont h) eqn:Hs; [discriminate|].
  intros E; inversion E; subst fs rest.
  destruct (break_blank_split_lines _ msg h r eq_refl Hbr)
    as (Hok & Hnb & Hmsg & b & r' & -> & Hb).
  pose proof (group_fields_wf h Hok Hnb) as Hg.
  assert (Hcat : concat (group_fields h) = concat h).
  { clear. induction h as [|l h IH]; simpl; [reflexivity|].
    destruct (group_fields h) as [|f fs]; simpl in *.
    - rewrite <- IH. reflexivity.
    - destruct (is_cont f); simpl; rewrite <- IH; [|reflexivity].
      rewrite app_assoc. reflexivity. }
  repeat split.
  - destruct (group_fields h) as [|f fs]; [constructor|].
    destruct Hg as ((l & t & E1 & Hl & Hc & Hbl & Ht) & Hfs).
    constructor; [|exact Hfs].
    exists l, t; repeat split; auto. congruence.
  - exists b, (concat r'); auto.
  - unfold unparse. rewrite Hcat, Hmsg. reflexivity.
Qed.

(** Parsing is stable under reprinting. *)
Lemma parse_message_unparse (msg : bytes) (fs : list bytes) (rest : bytes) :
  parse_message msg = Some (fs, rest) ->
  forall fs', Forall wf_field fs' ->
              parse_message (unparse fs' rest) = Some (fs', rest).
Proof.
  intros H fs' Hfs'. apply parse_message_inv in H as (_ & Hr & _).
  apply parse_unparse; assumption.
Qed.

(** ** The header rewriter *)

Lemma mk_field_wf (name value : bytes) :
  ~ In LF name -> ~ In LF value -> is_cont name = false ->
  wf_field (mk_field name value).
Proof.
  intros Hn Hv Hc. exists (mk_field name value), [].
  simpl; rewrite app_nil_r; repeat split; try constructor.
  - exists (name ++ COLON :: SP :: value ++ [CR]); split.
    + unfold mk_field, CRLF. rewrite <- !app_assoc. simpl.
      rewrite <- app_assoc. reflexivity.
    + rewrite in_app_iff. intros [H|[H|[H|H]]]; try discriminate; auto.
      apply in_app_iff in H as [H|[H|[]]]; [auto | discriminate].
  - unfold mk_field. destruct name as [|c name]; [reflexivity | exact Hc].
  - unfold is_blank. apply orb_false_iff; split;
      (destruct (eqb_bytes (mk_field name value) _) eqn:E; [|reflexivity]);
      apply eqb_bytes_eq in E;
      assert (Hin : In COLON (mk_field name value))
        by (unfold mk_field; apply in_app_iff; right; left; reflexivity);
      rewrite E in Hin; simpl in Hin;
      repeat (destruct Hin as [Hin|Hin]; try discriminate); contradiction.
Qed.

Lemma field_name_cont (f : bytes) :
  is_cont f = false -> is_cont (field_name f) = false.
Proof.
  destruct f as [|c f]; simpl; [reflexivity|].
  destruct (Ascii.eqb c COLON); [reflexivity | auto].
Qed.

Lemma wf_field_not_cont (f : bytes) : wf_field f -> is_cont f = false.
Proof.
  intros (l & t & -> & Hl & Hc & _).
  rewrite is_cont_app by (apply line_ok_nonempty; exact Hl). exact Hc.
Qed.

Lemma has_name_one_line (name : string) (f : bytes) :
  one_line name -> has_name name f = true -> ~ In LF (field_name f).
Proof.
  unfold has_name, eq_fold. intros Hn E. apply eqb_bytes_eq in E.
  eapply lower_no_LF; eauto.
Qed.

Lemma remove_fields_wf (names : list string) (fs : list bytes) :
  Forall wf_field fs -> Forall wf_field (tools.remove_fields names fs).
Proof.
  intros H. apply Forall_forall. intros f Hf.
  apply filter_In in Hf as [Hf _].
  rewrite Forall_forall in H. auto.
Qed.

Lemma upsert_field_wf (name : string) (value : bytes) (fs : list bytes) :
  one_line name -> is_cont (bytes_of name) = false -> ~ In LF value ->
  Forall wf_field fs -> Forall wf_field (tools.upsert_field name value fs).
Proof.
  intros Hn Hc Hv. induction 1 as [|f fs Hf Hfs IH]; simpl.
  - constructor; [|constructor]. apply mk_field_wf; auto.
  - destruct (has_name name f) eqn:E.
    + constructor; [|apply remove_fields_wf; exact Hfs].
      apply mk_field_wf; auto.
      * eapply has_name_one_line; eauto.
      * apply field_name_cont, wf_field_not_cont; exact Hf.
    + constructor; assumption.
Qed.

(** What [RemoveMessageHeaders] returns parses into the fields that were
    kept, before the same rest. *)
Lemma RemoveMessageHeaders_parse (msg msg' : bytes) (names : list string) :
  tools.RemoveMessageHeaders msg names = Okay msg' ->
  exists fs rest,
    parse_message msg = Some (fs, rest) /\
    parse_message msg' = Some (tools.remove_fields names fs, rest).
Proof.
  unfold tools.RemoveMessageHeaders.
  destruct (parse_message msg) as [[fs rest]|] eqn:E; [|discriminate].
  intros H; inversion H; subst msg'. exists fs, rest; split; [reflexivity|].
  eapply parse_message_unparse; eauto.
  apply remove_fields_wf. apply parse_message_inv in E; tauto.
Qed.

(** What [UpdateMessageHeader] returns parses into the upserted fields,
    before the same rest. *)
Lemma UpdateMessageHeader_parse (msg msg' : bytes) (name value : string) :
  one_line name -> is_cont (bytes_of name) = false -> one_line value ->
  tools.UpdateMessageHeader msg name value = Okay msg' ->
  exists fs rest,
    parse_message msg = Some (fs, rest) /\
    parse_message msg' =
      Some (tools.upsert_field name (bytes_of value) fs, rest).
Proof.
  intros Hn Hc Hv. unfold tools.UpdateMessageHeader.
  destruct (parse_message msg) as [[fs rest]|] eqn:E; [|discriminate].
  intros H; inversion H; subst msg'. exists fs, rest; split; [reflexivity|].
  eapply parse_message_unparse; eauto.
  apply upsert_field_wf; auto. apply parse_message_inv in E; tauto.
Qed.

(** A well-formed field put in front of a message is its first field. *)
Lemma parse_message_prepend (f msg : bytes) (fs : list bytes) (rest : bytes) :
  wf_field f -> parse_message msg = Some (fs, rest) ->
  parse_message (f ++ msg) = Some (f :: fs, rest).
Proof.
  intros Hf E. destruct (parse_message_inv _ _ _ E) as (Hfs & Hr & <-).
  change (f ++ unparse fs rest) with (f ++ (concat fs ++ rest)).
  rewrite app_assoc. change (parse_message (unparse (f :: fs) rest) = Some (f :: fs, rest)).
  apply parse_unparse; auto.
Qed.

(** ** Fields under removal and upsert *)

Lemma field_name_no_colon (f : bytes) : ~ In COLON (field_name f).
Proof.
  induction f as [|c f IH]; simpl; [tauto|].
  destruct (Ascii.eqb c COLON) eqn:E; simpl; [tauto|].
  apply Ascii.eqb_neq in E. intros [H|H]; [congruence | tauto].
Qed.

Lemma field_name_mk_field (n v : bytes) :
  ~ In COLON n -> field_name (mk_field n v) = n.
Proof.
  unfold mk_field. induction n as [|c n IH]; simpl; intros H.
  - reflexivity.
  - destruct (Ascii.eqb c COLON) eqn:E.
    + apply Ascii.eqb_eq in E. exfalso; apply H; left; auto.
    + rewrite IH; [reflexivity|]. intros Hin; apply H; right; exact Hin.
Qed.




Lemma has_name_mk_field (name : string) (n v : bytes) :
  ~ In COLON n -> has_name name (mk_field n v) = eq_fold n (bytes_of name).
Proof. intros H. unfold has_name. rewrite field_name_mk_field; auto. Qed.

(** A field has one name: two names it answers to are equal up to case. *)
Lemma has_name_same (a b : string) (f : bytes) :
  has_name a f = true -> has_name b f = true ->
  eq_fold (bytes_of a) (bytes_of b) = true.
Proof.
  unfold has_name, eq_fold. rewrite !eqb_bytes_eq. congruence.
Qed.

Lemma has_name_other (a b : string) (f : bytes) :
  eq_fold (bytes_of a) (bytes_of b) = false ->
  has_name a f = true -> has_name b f = false.
Proof.
  intros Hab Ha. destruct (has_name b f) eqn:Hb; [|reflexivity].
  rewrite (has_name_same a b f Ha Hb) in Hab. discriminate.
Qed.

Lemma has_any_name_single (name : string) (f : bytes) :
  has_any_name [name] f = has_name name f.
Proof. unfold has_any_name. simpl. apply orb_false_r. Qed.

Section Filters.

Variable P : bytes -> bool.

(** Removal does not touch the fields of other names. *)
Lemma filter_remove_fields (names : list string) (fs : list bytes) :
  (forall f, P f = true -> has_any_name names f = false) ->
  filter P (tools.remove_fields names fs) = filter P fs.
Proof.
  intros HP. unfold tools.remove_fields.
  induction fs as [|f fs IH]; simpl; [reflexivity|].
  destruct (has_any_name names f) eqn:E; simpl.
  - destruct (P f) eqn:Ef; [|exact IH].
    rewrite (HP f Ef) in E. discriminate.
  - rewrite IH. reflexivity.
Qed.

(** Removal leaves no field of the removed names. *)
Lemma filter_remove_fields_nil (names : list string) (fs : list bytes) :
  (forall f, P f = true -> has_any_name names f = true) ->
  filter P (tools.remove_fields names fs) = [].
Proof.
  intros HP. unfold tools.remove_fields.
  induction fs as [|f fs IH]; simpl; [reflexivity|].
  destruct (has_any_name names f) eqn:E; simpl; [exact IH|].
  destruct (P f) eqn:Ef; [|exact IH].
  rewrite (HP f Ef) in E. discriminate.
Qed.

(** Upsert does not touch the fields of other names. *)
Lemma filter_upsert_field (name : string) (v : bytes) (fs : list bytes) :
  ~ In COLON (bytes_of name) ->
  (forall f, has_name name f = true -> P f = false) ->
  filter P (tools.upsert_field name v fs) = filter P fs.
Proof.
  intros Hn HP. induction fs as [|f fs IH]; simpl.
  - rewrite HP; [reflexivity|].
    rewrite has_name_mk_field by exact Hn. apply eq_fold_refl.
  - destruct (has_name name f) eqn:E; simpl.
    + rewrite (HP f E), HP.
      * apply filter_remove_fields. intros g Hg.
        rewrite has_any_name_single.
        destruct (has_name name g) eqn:Eg; [|reflexivity].
        rewrite (HP g Eg) in Hg. discriminate.
      * rewrite has_name_mk_field by apply field_name_no_colon. exact E.
    + rewrite IH. reflexivity.
Qed.

End Filters.

(** After an upsert there is one field of that name, and it carries the
    value. *)
Lemma filter_upsert_field_same (name : string) (v : bytes) (fs : list bytes) :
  ~ In COLON (bytes_of name) ->
  exists n, ~ In COLON n /\ eq_fold n (bytes_of name) = true /\
            filter (has_name name) (tools.upsert_field name v fs)
            = [mk_field n v].
Proof.
  intros Hn. induction fs as [|f fs (n & H1 & H2 & H3)]; simpl.
  - exists (bytes_of name). rewrite has_name_mk_field by exact Hn.
    rewrite eq_fold_refl. repeat split; auto using eq_fold_refl.
  - destruct (has_name name f) eqn:E; simpl.
    + exists (field_name f).
      rewrite has_name_mk_field by apply field_name_no_colon.
      change (eq_fold (field_name f) (bytes_of name)) with (has_name name f).
      rewrite E. repeat split; auto using field_name_no_colon.
      f_equal. apply filter_remove_fields_nil.
      intros g Hg. rewrite has_any_name_single. exact Hg.
    + rewrite E. exists n; auto.
Qed.

(** ** Parts of a message *)

Lemma prefix_of_app (t b : bytes) : prefix_of t (t ++ b) = true.
Proof.
  induction t as [|x t IH]; simpl; [reflexivity|].
  rewrite Ascii.eqb_refl. exact IH.
Qed.

Lemma prefix_of_inv (t s : bytes) :
  prefix_of t s = true -> exists b, s = t ++ b.
Proof.
  revert s; induction t as [|x t IH]; intros s; simpl.
  - exists s; reflexivity.
  - destruct s as [|y s]; [discriminate|].
    rewrite andb_true_iff, Ascii.eqb_eq. intros [-> H].
    destruct (IH s H) as [b ->]. exists b; reflexivity.
Qed.

Lemma occurs_prefix (t s : bytes) : prefix_of t s = true -> occurs t s = true.
Proof. intros H. destruct s; simpl; rewrite H; reflexivity. Qed.

Lemma occurs_part (t s : bytes) : occurs t s = true <-> part t s.
Proof.
  split.
  - induction s as [|y s IH]; simpl; rewrite orb_true_iff.
    + intros [H|H]; [|discriminate].
      apply prefix_of_inv in H as [b ->]. exists [], b; reflexivity.
    + intros [H|H].
      * apply prefix_of_inv in H as [b ->]. exists [], b; reflexivity.
      * destruct (IH H) as (a & b & ->). exists (y :: a), b; reflexivity.
  - intros (a & b & ->). induction a as [|x a IH]; simpl.
    + apply occurs_prefix, prefix_of_app.
    + rewrite IH. apply orb_true_r.
Qed.

Lemma part_trans (p q s : bytes) : part p q -> part q s -> part p s.
Proof.
  intros (a & b & ->) (a' & b' & ->).
  exists (a' ++ a), (b ++ b'). rewrite <- !app_assoc. reflexivity.
Qed.

Lemma part_suffix (a s : bytes) : part s (a ++ s).
Proof. exists a, []. rewrite app_nil_r. reflexivity. Qed.

Lemma part_prefix (s b : bytes) : part s (s ++ b).
Proof. exists [], b. reflexivity. Qed.

Lemma part_field_body (f : bytes) : part (field_body f) f.
Proof.
  induction f as [|c f IH]; simpl.
  - exists [], []; reflexivity.
  - destruct (Ascii.eqb c COLON).
    + apply (part_suffix [c]).
    + eapply part_trans; [exact IH | apply (part_suffix [c])].
Qed.

Lemma part_skip_ws (s : bytes) : part (skip_ws s) s.
Proof.
  induction s as [|c s IH]; simpl.
  - exists [], []; reflexivity.
  - destruct (Ascii.eqb c SP || Ascii.eqb c TAB).
    + eapply part_trans; [exact IH | apply (part_suffix [c])].
    + exists [], []. rewrite app_nil_r. reflexivity.
Qed.

Lemma part_strip_eol (s : bytes) : part (strip_eol s) s.
Proof.
  unfold strip_eol. generalize (rev_involutive s).
  destruct (rev s) as [|c1 [|c2 r]]; intros <-; simpl.
  - exists [], []; reflexivity.
  - destruct (Ascii.eqb c1 LF); [apply (part_suffix [c1])|].
    exists [], []. reflexivity.
  - destruct (Ascii.eqb c1 LF).
    + destruct (Ascii.eqb c2 CR).
      * rewrite <- app_assoc. apply part_prefix.
      * apply part_prefix.
    + exists [], []. rewrite app_nil_r. reflexivity.
Qed.

Lemma part_field_value (f : bytes) : part (field_value f) f.
Proof.
  unfold field_value.
  eapply part_trans; [apply part_strip_eol|].
  eapply part_trans; [apply part_skip_ws | apply part_field_body].
Qed.

Lemma part_concat (f : bytes) (fs : list bytes) :
  In f fs -> part f (concat fs).
Proof.
  induction fs as [|g fs IH]; simpl; [tauto|].
  intros [->|H].
  - apply part_prefix.
  - eapply part_trans; [apply IH; exact H | apply part_suffix].
Qed.

(** The fields of a message are parts of it. *)
Lemma part_header_field (f msg : bytes) :
  In f (header_fields msg) -> part f msg.
Proof.
  unfold header_fields.
  destruct (parse_message msg) as [[fs rest]|] eqn:E; [|intros []].
  intros Hin. apply parse_message_inv in E as (_ & _ & <-).
  eapply part_trans; [apply part_concat; exact Hin | apply part_prefix].
Qed.

(** ** Running the handler *)

Lemma bind_ret {A B} (a : A) (k : A -> Handler B) : bind (ret a) k = k a.
Proof. reflexivity. Qed.

Lemma bind_reply {A B} (r : Response) (k : A -> Handler B) :
  bind (reply r) k = reply r.
Proof. reflexivity. Qed.

Ltac hsimpl := cbn [try when]; rewrite ?bind_ret, ?bind_reply; cbv beta.

Ltac stop :=
  let H := fresh in
  hsimpl; unfold reply; intros H; inversion H; subst; intros [].

Section HandlerLoop.

Variable env : Env.
Variable cfg : SMTPRelayConfig.

Lemma check_recipients_log (tos : list string) (log : list SendCall) :
  snd (check_recipients env cfg tos log) = log.
Proof.
  revert log; induction tos as [|to tos IH]; intros log; simpl; [reflexivity|].
  destruct (mail_ParseAddress env to) as [a|e]; [|reflexivity].
  unfold bind, when. destruct (not_allowed cfg a); simpl; [reflexivity|].
  apply IH.
Qed.

Lemma check_recipients_pass (tos : list string) (log : list SendCall) :
  fst (check_recipients env cfg tos log) = inr tt <-> Forall (accepted env cfg) tos.
Proof.
  revert log; induction tos as [|to tos IH]; intros log; simpl.
  - split; auto.
  - destruct (mail_ParseAddress env to) as [a|e] eqn:Ea.
    + unfold bind, when. destruct (not_allowed cfg a) eqn:En; simpl.
      * split; [discriminate|]. intros H; inversion H as [|? ? (a' & E1 & E2) _].
        congruence.
      * rewrite IH. split.
        -- intros H; constructor; [exists a; auto | exact H].
        -- intros H; inversion H; auto.
    + simpl. split; [discriminate|].
      intros H; inversion H as [|? ? (a' & E1 & E2) _]. congruence.
Qed.

Lemma check_recipients_cases (tos : list string) (log : list SendCall) :
  (check_recipients env cfg tos log = (inr tt, log) /\ Forall (accepted env cfg) tos) \/
  (exists resp, check_recipients env cfg tos log = (inl resp, log) /\
                ~ Forall (accepted env cfg) tos).
Proof.
  pose proof (check_recipients_log tos log) as Hl.
  pose proof (check_recipients_pass tos log) as Hp.
  destruct (check_recipients env cfg tos log) as [[resp|[]] log'];
    simpl in *; subst log'.
  - right; exists resp; split; [reflexivity|].
    intros H; apply Hp in H; discriminate.
  - left; split; [reflexivity | apply Hp; reflexivity].
Qed.

End HandlerLoop.

Section HandlerRun.

Variable env : Env.
Variable cfg : SMTPRelayConfig.

Lemma bind_check_recipients {B} (tos : list string) (k : unit -> Handler B)
      (log : list SendCall) :
  (Forall (accepted env cfg) tos /\
   bind (check_recipients env cfg tos) k log = k tt log) \/
  (~ Forall (accepted env cfg) tos /\
   exists resp, bind (check_recipients env cfg tos) k log = (inl resp, log)).
Proof.
  unfold bind.
  destruct (check_recipients_cases env cfg tos log)
    as [[-> H]|(resp & -> & H)]; [left | right]; eauto.
Qed.

Lemma bind_send {B} (from : string) (to : list string) (msg : bytes)
      (k : option string -> Handler B) (log : list SendCall) :
  bind (send env from to msg) k log =
  k (smtpd_Send env from to msg)
    (log ++ [{| send_from := from; send_to := to; send_msg := msg |}]).
Proof. reflexivity. Qed.

Lemma return_path_field_wf :
  one_line (ReturnPath cfg) -> wf_field (return_path_field cfg).
Proof.
  intros Hrp. unfold return_path_field.
  replace (bytes_of ("Return-Path: <" +++ ReturnPath cfg +++ ">" +++ crlf))
    with (mk_field (bytes_of "Return-Path")
            (bytes_of ("<" +++ ReturnPath cfg +++ ">"))).
  - apply mk_field_wf; [| |reflexivity].
    + simpl. intuition discriminate.
    + rewrite !bytes_of_append, !in_app_iff. simpl.
      intros [[H|[]]|[H|[H|[]]]]; try discriminate. exact (Hrp H).
  - unfold mk_field. rewrite !bytes_of_append. simpl.
    rewrite <- !app_assoc. reflexivity.
Qed.

Lemma message_id_one_line :
  one_line (shortuuid_New env) -> one_line (message_id env).
Proof.
  unfold one_line, message_id. rewrite !bytes_of_append, !in_app_iff. simpl.
  intros Hn H. repeat (destruct H as [H|H]; try discriminate; auto).
Qed.


(** The last three steps: the two upserts and the call of the transport. *)
Lemma finish_sent (from : string) (to : list string) (msg : bytes)
      (o : Response + unit) (log : list SendCall) (c : SendCall) :
  (msg <- try MalformedMessage
            (tools.UpdateMessageHeader msg "Date" (time_Now env)) ;;
   msg <- try MalformedMessage
            (tools.UpdateMessageHeader msg "Message-Id" (message_id env)) ;;
   err <- send env from to msg ;;
   match err with
   | Some e => reply (HttpError DeliveryFailed ("SMTP error: " +++ e))
   | None => reply RespOK
   end) [] = (o, log) ->
  In c log ->
  o = inl (match smtpd_Send env (send_from c) (send_to c) (send_msg c) with
           | Some e => HttpError DeliveryFailed ("SMTP error: " +++ e)
           | None => RespOK
           end) /\
  log = [c] /\ send_from c = from /\ send_to c = to /\
  and_then (tools.UpdateMessageHeader msg "Date" (time_Now env))
    (fun msg4 => tools.UpdateMessageHeader msg4 "Message-Id" (message_id env))
  = Okay (send_msg c).
Proof.
  destruct (tools.UpdateMessageHeader msg "Date" (time_Now env))
    as [msg3|e] eqn:E3; [|stop].
  hsimpl.
  destruct (tools.UpdateMessageHeader msg3 "Message-Id" (message_id env))
    as [msg4|e] eqn:E4; [|stop].
  hsimpl. rewrite bind_send. cbn [and_then]. rewrite E4.
  destruct (smtpd_Send env from to msg4) eqn:Es; unfold reply;
    intros H; inversion H; subst; intros [<-|[]]; simpl; rewrite Es; auto.
Qed.

(** The steps from the removal of Bcc on, for a resolved sender. *)
Lemma rewrite_sent (from0 : string) (to : list string) (msg : bytes)
      (m : mail_Header env) (o : Response + unit) (log : list SendCall)
      (c : SendCall) :
  (msg0 <- try MalformedMessage (tools.RemoveMessageHeaders msg ["Bcc"]) ;;
   fm <- (if negb (ReturnPath cfg =? "")%string then
            msg1 <- (if negb (Header_Get env m "Return-Path"
                                =? "<" +++ ReturnPath cfg +++ ">")%string
                     then
                       msg1 <- try MalformedMessage
                                 (tools.RemoveMessageHeaders msg0
                                    ["Return-Path"]) ;;
                       ret (bytes_of ("Return-Path: <" +++ ReturnPath cfg
                                        +++ ">" +++ crlf) ++ msg1)
                     else ret msg0) ;;
            ret (ReturnPath cfg, msg1)
          else ret (from0, msg0)) ;;
   msg1 <- try MalformedMessage
             (tools.UpdateMessageHeader (snd fm) "Date" (time_Now env)) ;;
   msg2 <- try MalformedMessage
             (tools.UpdateMessageHeader msg1 "Message-Id" (message_id env)) ;;
   err <- send env (fst fm) to msg2 ;;
   match err with
   | Some e => reply (HttpError DeliveryFailed ("SMTP error: " +++ e))
   | None => reply RespOK
   end) [] = (o, log) ->
  In c log ->
  o = inl (match smtpd_Send env (send_from c) (send_to c) (send_msg c) with
           | Some e => HttpError DeliveryFailed ("SMTP error: " +++ e)
           | None => RespOK
           end) /\
  log = [c] /\
  send_from c =
    (if (ReturnPath cfg =? "")%string then from0 else ReturnPath cfg) /\
  send_to c = to /\
  rewritten env cfg m msg = Okay (send_msg c).
Proof.
  unfold rewritten, rewrites_return_path.
  destruct (tools.RemoveMessageHeaders msg ["Bcc"]) as [msg1|e] eqn:E1;
    [|stop].
  hsimpl. cbn [and_then].
  destruct (ReturnPath cfg =? "")%string eqn:Erp; cbn [negb andb].
  - hsimpl. cbn [fst snd and_then]. intros H Hin.
    eapply finish_sent in H; [|exact Hin]. tauto.
  - destruct (Header_Get env m "Return-Path"
                =? "<" +++ ReturnPath cfg +++ ">")%string; cbn [negb].
    + hsimpl. cbn [fst snd and_then]. intros H Hin.
      eapply finish_sent in H; [|exact Hin]. tauto.
    + destruct (tools.RemoveMessageHeaders msg1 ["Return-Path"])
        as [msg2|e] eqn:E2; [|stop].
      hsimpl. cbn [fst snd and_then]. intros H Hin.
      eapply finish_sent in H; [|exact Hin]. tauto.
Qed.

(** Every call of the transport comes from a run that passed every check,
    and carries the resolved sender, the recipients of the request and the
    rewritten message. *)
Lemma ReleaseMessage_sent (r : Request) (o : Response + unit)
      (log : list SendCall) (c : SendCall) :
  ReleaseMessage env cfg r [] = (o, log) ->
  In c log ->
  exists msg data m froms from,
    storage_GetMessageRaw env (vars_id r) = Okay msg /\
    Body r = Okay data /\
    Forall (accepted env cfg) (To data) /\ To data <> [] /\
    mail_ReadMessage env msg = Okay m /\
    Header_AddressList env m "From" = Okay froms /\
    envelope_sender env cfg m froms = Some from /\
    o = inl (match smtpd_Send env (send_from c) (send_to c) (send_msg c) with
           | Some e => HttpError DeliveryFailed ("SMTP error: " +++ e)
           | None => RespOK
           end) /\
    log = [c] /\
    send_from c = from /\
    send_to c = To data /\
    rewritten env cfg m msg = Okay (send_msg c).
Proof.
  unfold ReleaseMessage.
  destruct (storage_GetMessageRaw env (vars_id r)) as [msg|e] eqn:Emsg;
    [|stop].
  hsimpl.
  destruct (Body r) as [data|e] eqn:Edata; [|stop].
  hsimpl.
  match goal with
  | |- bind (check_recipients _ _ ?tos) ?k ?l = _ -> _ =>
      destruct (bind_check_recipients tos k l)
        as [[Hacc ->]|[_ (resp & ->)]]; [|stop]
  end.
  destruct (To data) as [|to tos] eqn:Eto; [stop|].
  cbn [length Nat.eqb]. hsimpl.
  destruct (mail_ReadMessage env msg) as [m|e] eqn:Em; [|stop].
  hsimpl.
  destruct (Header_AddressList env m "From") as [froms|e] eqn:Efrom; [|stop].
  hsimpl.
  destruct froms as [|a froms]; [stop|].
  hsimpl.
  assert (Hto : to :: tos <> []) by discriminate.
  destruct (Header_AddressList env m "Sender") as [[|s ss]|e] eqn:Es;
    [stop| |]; hsimpl; intros H Hin;
    (eapply rewrite_sent in H; [|eassumption]);
    destruct H as (H1 & H2 & H3 & H4 & H5);
    exists msg, data, m, (a :: froms), (send_from c);
    rewrite Eto; repeat split; auto;
    unfold envelope_sender; rewrite Es, H3; reflexivity.
Qed.

(** The rewritten message parses into the released fields, before the rest
    of the stored message. *)
Lemma rewritten_parse (m : mail_Header env) (msg msg' : bytes) :
  (rewrites_return_path env cfg m = true -> one_line (ReturnPath cfg)) ->
  one_line (time_Now env) -> one_line (shortuuid_New env) ->
  rewritten env cfg m msg = Okay msg' ->
  exists fs rest,
    parse_message msg = Some (fs, rest) /\
    parse_message msg' = Some (released_fields env cfg m fs, rest).
Proof.
  intros Hrp Hnow Hnew. unfold rewritten, released_fields.
  destruct (tools.RemoveMessageHeaders msg ["Bcc"]) as [msg1|e] eqn:E1;
    [|discriminate].
  cbn [and_then].
  destruct (RemoveMessageHeaders_parse _ _ _ E1) as (fs & rest & Hp & Hp1).
  assert (Hfin : forall msg3 fs3,
    parse_message msg3 = Some (fs3, rest) ->
    and_then (tools.UpdateMessageHeader msg3 "Date" (time_Now env))
      (fun msg4 => tools.UpdateMessageHeader msg4 "Message-Id" (message_id env))
    = Okay msg' ->
    parse_message msg' =
      Some (tools.upsert_field "Message-Id" (bytes_of (message_id env))
              (tools.upsert_field "Date" (bytes_of (time_Now env)) fs3), rest)).
  { intros msg3 fs3 Hp3.
    destruct (tools.UpdateMessageHeader msg3 "Date" (time_Now env))
      as [msg4|e] eqn:E3; [|discriminate].
    cbn [and_then]. intros E4.
    apply UpdateMessageHeader_parse in E3 as (fs' & rest' & Hq & Hp4);
      [|intros H; simpl in H; intuition discriminate | reflexivity | exact Hnow].
    rewrite Hp3 in Hq; inversion Hq; subst fs' rest'.
    apply UpdateMessageHeader_parse in E4 as (fs' & rest' & Hq' & Hp5);
      [|intros H; simpl in H; intuition discriminate | reflexivity
       |apply message_id_one_line; exact Hnew].
    rewrite Hp4 in Hq'; inversion Hq'; subst fs' rest'. exact Hp5. }
  destruct (rewrites_return_path env cfg m).
  - specialize (Hrp eq_refl).
    destruct (tools.RemoveMessageHeaders msg1 ["Return-Path"])
      as [msg2|e] eqn:E2; [|discriminate].
    cbn [and_then]. intros H. exists fs, rest; split; [exact Hp|].
    destruct (RemoveMessageHeaders_parse _ _ _ E2) as (fs' & rest' & Hq & Hp2).
    rewrite Hp1 in Hq; inversion Hq; subst fs' rest'.
    eapply Hfin; [|exact H].
    apply parse_message_prepend; [|exact Hp2].
    apply return_path_field_wf; exact Hrp.
  - cbn [and_then]. intros H. exists fs, rest; split; [exact Hp|].
    eapply Hfin; eauto.
Qed.

End HandlerRun.

Section Pipeline.

Variable env : Env.
Variable cfg : SMTPRelayConfig.

Lemma transport_calls_inv (r : Request) (c : SendCall) :
  In c (transport_calls env cfg r) ->
  exists msg data m froms,
    storage_GetMessageRaw env (vars_id r) = Okay msg /\
    Body r = Okay data /\
    Forall (accepted env cfg) (To data) /\ To data <> [] /\
    mail_ReadMessage env msg = Okay m /\
    Header_AddressList env m "From" = Okay froms /\
    envelope_sender env cfg m froms = Some (send_from c) /\
    response env cfg r =
      match smtpd_Send env (send_from c) (send_to c) (send_msg c) with
      | Some e => HttpError DeliveryFailed ("SMTP error: " +++ e)
      | None => RespOK
      end /\
    transport_calls env cfg r = [c] /\
    send_to c = To data /\
    rewritten env cfg m msg = Okay (send_msg c).
Proof.
  unfold transport_calls, response.
  destruct (ReleaseMessage env cfg r []) as [o log] eqn:E. simpl.
  intros Hin.
  destruct (ReleaseMessage_sent env cfg r o log c E Hin)
    as (msg & data & m & froms & from & H1 & H2 & H3 & H4 & H5 & H6 & H7
        & H8 & H9 & H10 & H11 & H12).
  exists msg, data, m, froms. subst o from. repeat split; auto.
Qed.

(** The loop stops at the first recipient that is refused. *)
Lemma check_recipients_refused (pre post : list string) (to : string)
      (address : mail_Address) (log : list SendCall) :
  Forall (accepted env cfg) pre ->
  mail_ParseAddress env to = Okay address ->
  not_allowed cfg address = true ->
  check_recipients env cfg (pre ++ to :: post) log =
  (inl (HttpError RecipientNotAllowed
          ("Mail address does not match allowlist: " +++ to)), log).
Proof.
  intros Hpre Hto Hna. induction Hpre as [|p pre (a & Ha & Hok) _ IH]; simpl.
  - rewrite Hto. unfold bind, when. rewrite Hna. reflexivity.
  - rewrite Ha. unfold bind, when. rewrite Hok. simpl. exact IH.
Qed.

(** A refused list of recipients ends the loop with one of its two
    failures. *)
Lemma check_recipients_fail (tos : list string) (log : list SendCall) :
  ~ Forall (accepted env cfg) tos ->
  exists kind text,
    (kind = InvalidAddress \/ kind = RecipientNotAllowed) /\
    check_recipients env cfg tos log = (inl (HttpError kind text), log).
Proof.
  induction tos as [|to tos IH]; intros H.
  - exfalso; apply H; constructor.
  - simpl. destruct (mail_ParseAddress env to) as [a|e] eqn:Ea.
    + unfold bind, when. destruct (not_allowed cfg a) eqn:En; simpl.
      * eauto.
      * apply IH. intros Hf; apply H; constructor; [exists a; auto | exact Hf].
    + unfold reply. eauto.
Qed.

End Pipeline.

(** ** The released header fields *)

Section Released.

Variable env : Env.
Variable cfg : SMTPRelayConfig.

Lemma return_path_field_name : field_name (return_path_field cfg)
                               = bytes_of "Return-Path".
Proof. reflexivity. Qed.

Lemma has_name_return_path_field (name : string) :
  has_name name (return_path_field cfg)
  = eq_fold (bytes_of "Return-Path") (bytes_of name).
Proof. unfold has_name. rewrite return_path_field_name. reflexivity. Qed.

Lemma kept_not (m : mail_Header env) (name : string) (f : bytes) :
  In name (rewritten_names env cfg m) -> has_name name f = true -> kept env cfg m f = false.
Proof.
  intros Hin Hf. unfold kept, has_any_name.
  apply negb_false_iff, existsb_exists. exists name; auto.
Qed.

Lemma released_fields_no_bcc (m : mail_Header env) (fs : list bytes) :
  filter (has_name "Bcc") (released_fields env cfg m fs) = [].
Proof.
  unfold released_fields.
  rewrite !filter_upsert_field;
    try (intros f Hf; eapply has_name_other; [|exact Hf]; reflexivity);
    try (simpl; intuition discriminate).
  assert (H : filter (has_name "Bcc") (tools.remove_fields ["Bcc"] fs) = []).
  { apply filter_remove_fields_nil.
    intros f Hf. rewrite has_any_name_single. exact Hf. }
  destruct (rewrites_return_path env cfg m); [|exact H].
  cbn [filter]. rewrite has_name_return_path_field.
  change (eq_fold (bytes_of "Return-Path") (bytes_of "Bcc")) with false.
  rewrite filter_remove_fields; [exact H|].
  intros f Hf. rewrite has_any_name_single.
  eapply has_name_other; [|exact Hf]. reflexivity.
Qed.

Lemma released_fields_kept (m : mail_Header env) (fs : list bytes) :
  filter (kept env cfg m) (released_fields env cfg m fs)
  = filter (kept env cfg m) fs.
Proof.
  unfold released_fields.
  rewrite !filter_upsert_field;
    try (intros f Hf; eapply kept_not; [|exact Hf]; simpl; tauto);
    try (simpl; intuition discriminate).
  assert (H : filter (kept env cfg m) (tools.remove_fields ["Bcc"] fs)
              = filter (kept env cfg m) fs).
  { apply filter_remove_fields. intros f Hf. rewrite has_any_name_single.
    destruct (has_name "Bcc" f) eqn:E; [|reflexivity].
    rewrite (kept_not m "Bcc" f) in Hf; [discriminate | simpl; tauto | exact E]. }
  destruct (rewrites_return_path env cfg m) eqn:Erw; [|exact H].
  assert (Hin : In "Return-Path" (rewritten_names env cfg m)).
  { unfold rewritten_names. rewrite Erw. simpl; tauto. }
  cbn [filter]. rewrite (kept_not m "Return-Path").
  - rewrite filter_remove_fields; [exact H|].
    intros f Hf. rewrite has_any_name_single.
    destruct (has_name "Return-Path" f) eqn:E; [|reflexivity].
    rewrite (kept_not m "Return-Path" f Hin E) in Hf. discriminate.
  - exact Hin.
  - rewrite has_name_return_path_field. reflexivity.
Qed.

Lemma released_fields_return_path_kept (m : mail_Header env)
      (fs : list bytes) :
  rewrites_return_path env cfg m = false ->
  filter (has_name "Return-Path") (released_fields env cfg m fs)
  = filter (has_name "Return-Path") fs.
Proof.
  intros Hrw. unfold released_fields. rewrite Hrw.
  rewrite !filter_upsert_field;
    try (intros f Hf; eapply has_name_other; [|exact Hf]; reflexivity);
    try (simpl; intuition discriminate).
  apply filter_remove_fields. intros f Hf. rewrite has_any_name_single.
  eapply has_name_other; [|exact Hf]. reflexivity.
Qed.

Lemma released_fields_return_path_first (m : mail_Header env)
      (fs : list bytes) :
  rewrites_return_path env cfg m = true ->
  exists tail,
    released_fields env cfg m fs = return_path_field cfg :: tail /\
    filter (has_name "Return-Path") tail = [] /\ tail <> [].
Proof.
  intros Hrw. unfold released_fields. rewrite Hrw.
  set (fs1 := tools.remove_fields ["Return-Path"]
                (tools.remove_fields ["Bcc"] fs)).
  cbn [tools.upsert_field]. rewrite has_name_return_path_field.
  change (eq_fold (bytes_of "Return-Path") (bytes_of "Date")) with false.
  cbn iota. cbn [tools.upsert_field]. rewrite has_name_return_path_field.
  change (eq_fold (bytes_of "Return-Path") (bytes_of "Message-Id")) with false.
  cbn iota.
  eexists; split; [reflexivity|]. split.
  - rewrite !filter_upsert_field;
      try (intros f Hf; eapply has_name_other; [|exact Hf]; reflexivity);
      try (simpl; intuition discriminate).
    apply filter_remove_fields_nil.
    intros f Hf. rewrite has_any_name_single. exact Hf.
  - destruct (filter_upsert_field_same "Message-Id"
                (bytes_of (message_id env))
                (tools.upsert_field "Date" (bytes_of (time_Now env)) fs1))
      as (n & _ & _ & H); [simpl; intuition discriminate|].
    intros E. rewrite E in H. discriminate.
Qed.

(** The header fields of a message handed to the transport. *)
Lemma sent_header_fields (r : Request) (c : SendCall) (msg : bytes)
      (m : mail_Header env) :
  (rewrites_return_path env cfg m = true -> one_line (ReturnPath cfg)) ->
  one_line (time_Now env) -> one_line (shortuuid_New env) ->
  storage_GetMessageRaw env (vars_id r) = Okay msg ->
  mail_ReadMessage env msg = Okay m ->
  In c (transport_calls env cfg r) ->
  exists fs rest,
    parse_message msg = Some (fs, rest) /\
    parse_message (send_msg c) = Some (released_fields env cfg m fs, rest).
Proof.
  intros Hrp Hnow Hnew Hmsg Hm Hin.
  destruct (transport_calls_inv env cfg r c Hin)
    as (msg' & data & m' & froms & H1 & _ & _ & _ & H5 & _ & _ & _ & _ & _ & H11).
  rewrite Hmsg in H1; inversion H1; subst msg'.
  rewrite Hm in H5; inversion H5; subst m'.
  eapply rewritten_parse; eauto.
Qed.

(** The blank line and the body reach the transport untouched. *)
Lemma sent_body_untouched (r : Request) (c : SendCall) (msg : bytes)
      (m : mail_Header env) :
  (rewrites_return_path env cfg m = true -> one_line (ReturnPath cfg)) ->
  one_line (time_Now env) -> one_line (shortuuid_New env) ->
  storage_GetMessageRaw env (vars_id r) = Okay msg ->
  mail_ReadMessage env msg = Okay m ->
  In c (transport_calls env cfg r) ->
  message_rest (send_msg c) = message_rest msg.
Proof.
  intros Hrp Hnow Hnew Hmsg Hm Hin.
  destruct (sent_header_fields r c msg m Hrp Hnow Hnew Hmsg Hm Hin)
    as (fs & rest & Hp & Hp').
  unfold message_rest. rewrite Hp, Hp'. reflexivity.
Qed.

End Released.

(** * The claims *)

Section Claims.

Variable env : Env.
Variable cfg : SMTPRelayConfig.

(** C1, as the code has it: the message handed to the transport has no Bcc
    field, and every field of the stored message that the release does not
    rewrite (every field but Bcc, Date, Message-Id and, when the override
    replaces it, Return-Path) is there with its original bytes and in its
    original order. *)
Theorem bcc_removed_other_fields_kept
        (r : Request) (c : SendCall) (msg : bytes) (m : mail_Header env) :
  one_line (ReturnPath cfg) -> one_line (time_Now env) ->
  one_line (shortuuid_New env) ->
  storage_GetMessageRaw env (vars_id r) = Okay msg ->
  mail_ReadMessage env msg = Okay m ->
  In c (transport_calls env cfg r) ->
  filter (has_name "Bcc") (header_fields (send_msg c)) = [] /\
  filter (kept env cfg m) (header_fields (send_msg c))
  = filter (kept env cfg m) (header_fields msg).
Proof.
  intros Hrp Hnow Hnew Hmsg Hm Hin.
  destruct (sent_header_fields env cfg r c msg m (fun _ => Hrp) Hnow Hnew
              Hmsg Hm Hin) as (fs & rest & Hp & Hp').
  unfold header_fields. rewrite Hp, Hp'. split.
  - apply released_fields_no_bcc.
  - apply released_fields_kept.
Qed.

(** C2: a release that ends in one of the failures NotFound,
    InvalidAddress, RecipientNotAllowed, EmptyRecipientList, NoSenderFound
    or MalformedMessage has made no call to the outbound transport. *)
Theorem failed_release_sends_nothing (r : Request) :
  fails_before_dispatch (response env cfg r) = true ->
  transport_calls env cfg r = [].
Proof.
  intros Hfail.
  destruct (transport_calls env cfg r) as [|c log] eqn:E; [reflexivity|].
  assert (Hin : In c (transport_calls env cfg r)) by (rewrite E; left; auto).
  destruct (transport_calls_inv env cfg r c Hin)
    as (msg & data & m & froms & _ & _ & _ & _ & _ & _ & _ & Hr & _).
  rewrite Hr in Hfail.
  destruct (smtpd_Send env (send_from c) (send_to c) (send_msg c));
    discriminate.
Qed.

(** C3, as the code has it: once the message is loaded and parsed and the
    recipients are accepted, the release fails with NoSenderFound exactly
    when the From header gives no address, whatever the Sender header holds
    and whether or not an override is configured. *)
Theorem no_sender_found_iff_from_unusable
        (r : Request) (msg : bytes) (data : releaseMessageRequestBody)
        (m : mail_Header env) :
  storage_GetMessageRaw env (vars_id r) = Okay msg ->
  Body r = Okay data ->
  Forall (accepted env cfg) (To data) -> To data <> [] ->
  mail_ReadMessage env msg = Okay m ->
  (exists e, response env cfg r = HttpError NoSenderFound e)
  <-> from_unusable env m.
Proof.
  intros Hmsg Hbody Hacc Hne Hm.
  unfold response, ReleaseMessage, from_unusable.
  rewrite Hmsg. hsimpl. rewrite Hbody. hsimpl.
  match goal with
  | |- context [fst (bind (check_recipients _ _ ?tos) ?k ?l)] =>
      destruct (bind_check_recipients env cfg tos k l)
        as [[_ ->]|[H _]]; [|contradiction]
  end.
  destruct (To data) as [|to tos]; [congruence|].
  cbn [length Nat.eqb]. hsimpl. rewrite Hm. hsimpl.
  destruct (Header_AddressList env m "From") as [[|a froms]|e].
  - hsimpl. simpl. split; eauto.
  - hsimpl. split.
    + intros [e He]. exfalso. revert He.
      repeat (hsimpl; cbn [fst snd negb];
              match goal with
              | |- context [bind (try _ ?x) _] => destruct x
              | |- context [bind (match ?x with _ => _ end) _] => destruct x
              | |- context [bind (send _ _ _ _) _ _] => rewrite bind_send
              | |- context [match ?x with Some _ => _ | None => _ end] =>
                  destruct x
              end); simpl; discriminate.
    + intros [[e He]|He]; discriminate.
  - hsimpl. simpl. split; eauto.
Qed.

(** C4, as the code has it: the recipients handed to the transport are the
    strings of the request themselves, unchanged and in their order; each
    of them parses as one address, whose address-only form matches the
    allowlist when there is one. *)
Theorem recipients_sent_as_supplied (r : Request) (c : SendCall) :
  In c (transport_calls env cfg r) ->
  exists data,
    Body r = Okay data /\ send_to c = To data /\
    Forall (accepted env cfg) (To data).
Proof.
  intros Hin.
  destruct (transport_calls_inv env cfg r c Hin)
    as (msg & data & m & froms & _ & H2 & H3 & _ & _ & _ & _ & _ & _ & H10 & _).
  exists data; auto.
Qed.

(** A token that does not occur in the stored message is the value of none
    of its fields, between [<] and [@mailpit>]. *)
Lemma absent_token_in_no_field (token : string) (msg f0 : bytes) :
  occurs (bytes_of token) msg = false ->
  In f0 (header_fields msg) ->
  field_value f0 <> bytes_of ("<" +++ token +++ "@mailpit>").
Proof.
  intros Hfresh Hf0 E.
  assert (Hocc : occurs (bytes_of token) msg = true).
  { apply occurs_part.
    eapply part_trans; [|apply part_header_field; exact Hf0].
    eapply part_trans; [|apply part_field_value]. rewrite E.
    rewrite !bytes_of_append.
    exists (bytes_of "<"), (bytes_of "@mailpit>"). reflexivity. }
  congruence.
Qed.


(** C6: when the override return-path is configured, the envelope sender
    of every call to the transport is the override, whatever the Sender and
    From headers give and whether or not the Return-Path header was
    rewritten. *)
Theorem override_is_envelope_sender (r : Request) (c : SendCall) :
  ReturnPath cfg <> "" ->
  In c (transport_calls env cfg r) ->
  send_from c = ReturnPath cfg.
Proof.
  intros Hrp Hin.
  destruct (transport_calls_inv env cfg r c Hin)
    as (msg & data & m & froms & _ & _ & _ & _ & _ & _ & Hs & _).
  apply String.eqb_neq in Hrp.
  unfold envelope_sender in Hs. rewrite Hrp in Hs.
  destruct froms as [|a froms]; [discriminate|].
  destruct (Header_AddressList env m "Sender") as [[|s ss]|e];
    inversion Hs; reflexivity.
Qed.

(** C7: when the override is configured and the Return-Path header of the
    stored message already equals it, the Return-Path fields of the message
    handed to the transport are those of the stored message, byte for
    byte. *)
Theorem return_path_left_alone
        (r : Request) (c : SendCall) (msg : bytes) (m : mail_Header env) :
  one_line (time_Now env) -> one_line (shortuuid_New env) ->
  storage_GetMessageRaw env (vars_id r) = Okay msg ->
  mail_ReadMessage env msg = Okay m ->
  ReturnPath cfg <> "" ->
  Header_Get env m "Return-Path" = "<" +++ ReturnPath cfg +++ ">" ->
  In c (transport_calls env cfg r) ->
  filter (has_name "Return-Path") (header_fields (send_msg c))
  = filter (has_name "Return-Path") (header_fields msg).
Proof.
  intros Hnow Hnew Hmsg Hm _ Hget Hin.
  assert (Hrw : rewrites_return_path env cfg m = false).
  { unfold rewrites_return_path. rewrite Hget, String.eqb_refl.
    apply andb_false_r. }
  destruct (sent_header_fields env cfg r c msg m) as (fs & rest & Hp & Hp');
    auto.
  { rewrite Hrw; discriminate. }
  unfold header_fields. rewrite Hp, Hp'.
  apply released_fields_return_path_kept. exact Hrw.
Qed.

(** C8, as the code has it: when the override is configured and the
    Return-Path header of the stored message does not equal it, the new
    Return-Path field is written in front of the message: it is the first
    header field, before every other field, and the only one of its
    name. *)
Theorem return_path_written_first
        (r : Request) (c : SendCall) (msg : bytes) (m : mail_Header env) :
  one_line (ReturnPath cfg) -> one_line (time_Now env) ->
  one_line (shortuuid_New env) ->
  storage_GetMessageRaw env (vars_id r) = Okay msg ->
  mail_ReadMessage env msg = Okay m ->
  ReturnPath cfg <> "" ->
  Header_Get env m "Return-Path" <> "<" +++ ReturnPath cfg +++ ">" ->
  In c (transport_calls env cfg r) ->
  exists tail after,
    header_fields (send_msg c) = return_path_field cfg :: tail /\
    filter (has_name "Return-Path") tail = [] /\ tail <> [] /\
    send_msg c = return_path_field cfg ++ after.
Proof.
  intros Hrp Hnow Hnew Hmsg Hm Hcfg Hget Hin.
  destruct (sent_header_fields env cfg r c msg m (fun _ => Hrp) Hnow Hnew
              Hmsg Hm Hin) as (fs & rest & Hp & Hp').
  assert (Hrw : rewrites_return_path env cfg m = true).
  { unfold rewrites_return_path.
    apply String.eqb_neq in Hcfg, Hget. rewrite Hcfg, Hget. reflexivity. }
  destruct (released_fields_return_path_first env cfg m fs Hrw)
    as (tail & E & H1 & H2).
  exists tail, (concat tail ++ rest).
  unfold header_fields. rewrite Hp', E. repeat split; auto.
  apply parse_message_inv in Hp' as (_ & _ & <-).
  rewrite E. unfold unparse. simpl. rewrite app_assoc. reflexivity.
Qed.

(** C9, as the code has it: with an allowlist configured and a recipient
    whose address-only form does not match it, the release fails and the
    transport is never called.  The failure is RecipientNotAllowed for that
    recipient when the message is in the store and every recipient before
    it is accepted; otherwise it is the failure met before: NotFound, or
    InvalidAddress or RecipientNotAllowed for an earlier recipient. *)
Theorem refused_recipient_aborts_release
        (r : Request) (data : releaseMessageRequestBody)
        (re : string -> bool) (pre post : list string) (to : string)
        (address : mail_Address) :
  AllowedRecipientsRegexp cfg = Some re ->
  Body r = Okay data ->
  To data = pre ++ to :: post ->
  mail_ParseAddress env to = Okay address ->
  re (Address address) = false ->
  transport_calls env cfg r = [] /\
  (response env cfg r = NotFound \/
   exists kind text,
     (kind = InvalidAddress \/ kind = RecipientNotAllowed) /\
     response env cfg r = HttpError kind text) /\
  (forall msg,
      storage_GetMessageRaw env (vars_id r) = Okay msg ->
      Forall (accepted env cfg) pre ->
      response env cfg r =
        HttpError RecipientNotAllowed
          ("Mail address does not match allowlist: " +++ to)).
Proof.
  intros Hre Hbody Hto Hparse Hno.
  assert (Hna : not_allowed cfg address = true).
  { unfold not_allowed. rewrite Hre, Hno. reflexivity. }
  assert (Hrefused : ~ Forall (accepted env cfg) (To data)).
  { rewrite Hto. intros H. apply Forall_app in H as [_ H].
    inversion H as [|? ? (a & Ha & Hok) _]; subst.
    rewrite Hparse in Ha; inversion Ha; subst a. congruence. }
  split; [|split].
  - destruct (transport_calls env cfg r) as [|c log] eqn:E; [reflexivity|].
    assert (Hin : In c (transport_calls env cfg r)) by (rewrite E; left; auto).
    destruct (transport_calls_inv env cfg r c Hin)
      as (msg & data' & m & froms & _ & H2 & H3 & _).
    rewrite Hbody in H2; inversion H2; subst data'. contradiction.
  - unfold response, ReleaseMessage.
    destruct (storage_GetMessageRaw env (vars_id r)) as [msg|e];
      [|left; reflexivity].
    right. hsimpl. rewrite Hbody. hsimpl.
    destruct (check_recipients_fail env cfg (To data) [] Hrefused)
      as (kind & text & Hk & Hc).
    exists kind, text; split; [exact Hk|].
    unfold bind at 1. rewrite Hc. reflexivity.
  - intros msg Hmsg Hpre. unfold response, ReleaseMessage.
    rewrite Hmsg. hsimpl. rewrite Hbody. hsimpl.
    unfold bind at 1. rewrite Hto.
    rewrite (check_recipients_refused env cfg pre post to address [] Hpre
               Hparse Hna).
    reflexivity.
Qed.

(** The Sender header that parses into no address makes the handler read
    the first element of an empty list. *)
Lemma empty_sender_list_panics
      (r : Request) (msg : bytes) (data : releaseMessageRequestBody)
      (m : mail_Header env) (a : mail_Address) (froms : list mail_Address) :
  storage_GetMessageRaw env (vars_id r) = Okay msg ->
  Body r = Okay data ->
  Forall (accepted env cfg) (To data) -> To data <> [] ->
  mail_ReadMessage env msg = Okay m ->
  Header_AddressList env m "From" = Okay (a :: froms) ->
  Header_AddressList env m "Sender" = Okay [] ->
  response env cfg r = Panicked.
Proof.
  intros Hmsg Hbody Hacc Hne Hm Hfrom Hsender.
  unfold response, ReleaseMessage.
  rewrite Hmsg. hsimpl. rewrite Hbody. hsimpl.
  match goal with
  | |- context [fst (bind (check_recipients _ _ ?tos) ?k ?l)] =>
      destruct (bind_check_recipients env cfg tos k l)
        as [[_ ->]|[H _]]; [|contradiction]
  end.
  destruct (To data) as [|to tos]; [congruence|].
  cbn [length Nat.eqb]. hsimpl. rewrite Hm. hsimpl. rewrite Hfrom. hsimpl.
  rewrite Hsender. hsimpl. reflexivity.
Qed.

End Claims.

(** * The claims on examples *)

Lemma one_line_check (s : string) :
  forallb (fun c => negb (Ascii.eqb c LF)) (bytes_of s) = true -> one_line s.
Proof.
  unfold one_line. intros H Hin.
  rewrite forallb_forall in H. specialize (H LF Hin). discriminate.
Qed.

Lemma accepted_check (env : Env) (cfg : SMTPRelayConfig) (tos : list string) :
  forallb (fun to => match mail_ParseAddress env to with
                     | Okay address => negb (not_allowed cfg address)
                     | Err _ => false
                     end) tos = true ->
  Forall (accepted env cfg) tos.
Proof.
  intros H. apply Forall_forall. intros to Hin.
  rewrite forallb_forall in H. specialize (H to Hin).
  unfold accepted. destruct (mail_ParseAddress env to) as [a|e]; [|discriminate].
  exists a; split; [reflexivity|]. apply negb_true_iff; exact H.
Qed.

Section OnExamples.

Import Simple Examples.

(** The scenario of the specification: a message from alice, no Sender, no
    policy, released to bob. *)
Lemma release_from_alice_to_bob :
  response (env with_bcc) no_policy to_bob = RespOK /\
  transport_calls (env with_bcc) no_policy to_bob
  = [{| send_from := "alice@example.com";
        send_to := ["bob@example.com"];
        send_msg := lines ["Date: Fri, 30 Oct 2026 10:00:00 +0000";
                           "From: alice@example.com";
                           "Subject: hi";
                           "Message-Id: <KwSysDpxcBU9FNhGkn2dCf@mailpit>";
                           "";
                           "body"] |}].
Proof. split; vm_compute; reflexivity. Qed.

(** C1, as stated, fails: the Date field of the stored message is no Bcc
    field, and the message handed to the transport has another Date. *)
Lemma date_field_not_retained :
  filter (has_name "Bcc") (header_fields with_bcc)
  = [lines ["Bcc: secret@example.com"]] /\
  response (env with_bcc) no_policy to_bob = RespOK /\
  filter (has_name "Date") (header_fields with_bcc)
  = [lines ["Date: Mon, 1 Jan 2024 00:00:00 +0000"]] /\
  has_name "Bcc" (lines ["Date: Mon, 1 Jan 2024 00:00:00 +0000"]) = false /\
  map (fun c => filter (has_name "Date") (header_fields (send_msg c)))
      (transport_calls (env with_bcc) no_policy to_bob)
  = [[lines ["Date: Fri, 30 Oct 2026 10:00:00 +0000"]]] /\
  ~ In (lines ["Date: Mon, 1 Jan 2024 00:00:00 +0000"])
       (header_fields
          (send_msg (first_call
                       (transport_calls (env with_bcc) no_policy to_bob)))).
Proof.
  repeat split; try (vm_compute; reflexivity).
  vm_compute. intros H.
  repeat (destruct H as [H|H]; [discriminate|]). exact H.
Qed.

Lemma bcc_removed_other_fields_kept_witness :
  filter (has_name "Bcc")
    (header_fields
       (send_msg (first_call
                    (transport_calls (env with_bcc) override to_bob)))) = [] /\
  filter (kept (env with_bcc) override (header_fields with_bcc))
    (header_fields
       (send_msg (first_call
                    (transport_calls (env with_bcc) override to_bob))))
  = filter (kept (env with_bcc) override (header_fields with_bcc))
      (header_fields with_bcc).
Proof.
  apply (bcc_removed_other_fields_kept (env with_bcc) override to_bob);
    try (apply one_line_check; vm_compute; reflexivity);
    try (vm_compute; reflexivity).
  vm_compute. left; reflexivity.
Defined.

Lemma failed_release_sends_nothing_witness :
  fails_before_dispatch
    (response (env with_bcc) allow_example_com
       to_eve) = true /\
  transport_calls (env with_bcc) allow_example_com
    to_eve = [].
Proof.
  split; [vm_compute; reflexivity|].
  apply failed_release_sends_nothing. vm_compute; reflexivity.
Defined.

(** C3, as stated, fails: with the override configured and a usable Sender
    header, a message without a From header is refused for its sender. *)
Lemma override_does_not_replace_from :
  ReturnPath override = "bounce@example.com" /\
  Header_AddressList (env no_from) (header_fields no_from) "Sender"
  = Okay [{| Name := ""; Address := "carol@example.com" |}] /\
  response (env no_from) override to_bob
  = HttpError NoSenderFound "mail: header not in message" /\
  transport_calls (env no_from) override to_bob = [].
Proof. repeat split; vm_compute; reflexivity. Qed.

Lemma no_sender_found_iff_from_unusable_witness :
  (exists e, response (env no_from) override to_bob = HttpError NoSenderFound e)
  <-> from_unusable (env no_from) (header_fields no_from).
Proof.
  apply (no_sender_found_iff_from_unusable (env no_from) override to_bob no_from
           {| To := ["bob@example.com"] |});
    try (vm_compute; reflexivity).
  - apply accepted_check. vm_compute; reflexivity.
  - discriminate.
Defined.

(** C4, as stated, fails: a recipient given with a display name reaches the
    transport with its display name. *)
Lemma recipients_not_normalized :
  response (env with_bcc) no_policy to_named_bob = RespOK /\
  map send_to (transport_calls (env with_bcc) no_policy to_named_bob)
  = [["Bob <bob@example.com>"]] /\
  mail_ParseAddress (env with_bcc) "Bob <bob@example.com>"
  = Okay {| Name := "Bob"; Address := "bob@example.com" |} /\
  ~ normalized_recipients (env with_bcc) ["Bob <bob@example.com>"]
      ["Bob <bob@example.com>"].
Proof.
  repeat split; try (vm_compute; reflexivity).
  intros H. inversion H as [|? ? ? ? (a & Ha & E) _]; subst.
  vm_compute in Ha. inversion Ha; subst a. discriminate.
Qed.

Lemma recipients_sent_as_supplied_witness :
  exists data,
    Body to_named_bob = Okay data /\
    send_to (first_call (transport_calls (env with_bcc) no_policy
                           to_named_bob))
    = To data /\
    Forall (accepted (env with_bcc) no_policy) (To data).
Proof.
  apply recipients_sent_as_supplied. vm_compute. left; reflexivity.
Defined.



Lemma override_is_envelope_sender_witness :
  send_from (first_call (transport_calls (env with_return_path) override to_bob))
  = "bounce@example.com".
Proof.
  apply (override_is_envelope_sender (env with_return_path) override to_bob).
  - discriminate.
  - vm_compute. left; reflexivity.
Defined.

Lemma return_path_left_alone_witness :
  filter (has_name "Return-Path")
    (header_fields
       (send_msg (first_call
                    (transport_calls (env with_return_path) override to_bob))))
  = filter (has_name "Return-Path") (header_fields with_return_path).
Proof.
  apply (return_path_left_alone (env with_return_path) override to_bob
           _ with_return_path (header_fields with_return_path));
    try (apply one_line_check; vm_compute; reflexivity);
    try (vm_compute; reflexivity).
  - discriminate.
  - vm_compute. left; reflexivity.
Defined.

(** C8, as stated, fails: the new Return-Path field is the first field of
    the header block, and the last one is the Message-Id field. *)
Lemma return_path_not_appended :
  ReturnPath override = "bounce@example.com" /\
  Header_Get (env with_bcc) (header_fields with_bcc) "Return-Path" = "" /\
  response (env with_bcc) override to_bob = RespOK /\
  map (fun c => header_fields (send_msg c))
      (transport_calls (env with_bcc) override to_bob)
  = [[lines ["Return-Path: <bounce@example.com>"];
      lines ["Date: Fri, 30 Oct 2026 10:00:00 +0000"];
      lines ["From: alice@example.com"];
      lines ["Subject: hi"];
      lines ["Message-Id: <KwSysDpxcBU9FNhGkn2dCf@mailpit>"]]] /\
  last (header_fields
          (send_msg (first_call
                       (transport_calls (env with_bcc) override to_bob)))) []
  <> return_path_field override.
Proof.
  repeat split; try (vm_compute; reflexivity).
  vm_compute. discriminate.
Qed.

Lemma return_path_written_first_witness :
  exists tail after,
    header_fields
      (send_msg (first_call (transport_calls (env with_bcc) override to_bob)))
    = return_path_field override :: tail /\
    filter (has_name "Return-Path") tail = [] /\ tail <> [] /\
    send_msg (first_call (transport_calls (env with_bcc) override to_bob))
    = return_path_field override ++ after.
Proof.
  apply (return_path_written_first (env with_bcc) override to_bob
           _ with_bcc (header_fields with_bcc));
    try (apply one_line_check; vm_compute; reflexivity);
    try (vm_compute; reflexivity).
  - discriminate.
  - vm_compute. discriminate.
  - vm_compute. left; reflexivity.
Defined.

(** C9, as stated, fails: a recipient that matches no allowlist comes
    after one that is no address, and the release reports the latter. *)
Lemma refused_recipient_not_reported :
  mail_ParseAddress (env with_bcc) "eve@attacker.test"
  = Okay {| Name := ""; Address := "eve@attacker.test" |} /\
  example_com "eve@attacker.test" = false /\
  response (env with_bcc) allow_example_com to_invalid_then_eve
  = HttpError InvalidAddress "Invalid email address: not-an-address" /\
  forall text,
    response (env with_bcc) allow_example_com to_invalid_then_eve
    <> HttpError RecipientNotAllowed text.
Proof.
  repeat split; try (vm_compute; reflexivity).
  intros text. vm_compute. discriminate.
Qed.

Lemma refused_recipient_aborts_release_witness :
  transport_calls (env with_bcc) allow_example_com to_bob_then_eve = [] /\
  response (env with_bcc) allow_example_com to_bob_then_eve
  = HttpError RecipientNotAllowed
      "Mail address does not match allowlist: eve@attacker.test".
Proof.
  destruct (refused_recipient_aborts_release (env with_bcc) allow_example_com
              to_bob_then_eve {| To := ["bob@example.com"; "eve@attacker.test"] |}
              example_com ["bob@example.com"] [] "eve@attacker.test"
              {| Name := ""; Address := "eve@attacker.test" |})
    as (H1 & _ & H3); try (vm_compute; reflexivity).
  split; [exact H1|].
  apply (H3 with_bcc); [vm_compute; reflexivity|].
  apply accepted_check. vm_compute; reflexivity.
Defined.

(** C10: the Sender field [undisclosed-recipients:;] parses into an empty
    list of addresses with no error, and the handler panics on its first
    element. *)
Theorem empty_group_sender_panics :
  Header_AddressList (env empty_group_sender)
    (header_fields empty_group_sender) "Sender" = Okay [] /\
  Header_AddressList (env empty_group_sender)
    (header_fields empty_group_sender) "From"
  = Okay [{| Name := ""; Address := "alice@example.com" |}] /\
  response (env empty_group_sender) no_policy to_bob = Panicked /\
  transport_calls (env empty_group_sender) no_policy to_bob = [].
Proof. repeat split; vm_compute; reflexivity. Qed.

End OnExamples.

(** * The other handlers *)

Ltac act_run :=
  cbv [serve act_bind act_ret act_return wr call call_err call_value];
  cbn [db storage_calls writer_calls fst snd app error_of].

Section HandlerFacts.

Variable sv : Services.

Local Abbreviation S := (st sv).

(** X1: the pagination window is never negative and never empty. *)
Theorem getStartLimit_bounds (req : HttpRequest) :
  let start := fst (getStartLimit sv req) in
  let limit := snd (getStartLimit sv req) in
  (0 <= start)%Z /\ (1 <= limit)%Z /\
  (start = 0%Z \/ strconv_Atoi sv (URL_Query_Get req "start") = Okay start) /\
  (limit = 50%Z \/ strconv_Atoi sv (URL_Query_Get req "limit") = Okay limit).
Proof.
  unfold getStartLimit. cbn [fst snd].
  destruct (strconv_Atoi sv (URL_Query_Get req "start")) as [n|e];
    destruct (strconv_Atoi sv (URL_Query_Get req "limit")) as [n'|e'];
    try destruct (0 <? n)%Z eqn:E; try destruct (0 <? n')%Z eqn:E';
    try apply Z.ltb_lt in E; try apply Z.ltb_lt in E';
    repeat split; try lia; auto.
Qed.

Lemma for_each_id_run (c : string -> StorageCall)
      (f : string -> storage.Store S -> option string * storage.Store S)
      (ids : list string) :
  forall s : World S,
  exists n log,
    (n <= length ids)%nat /\
    storage_calls (snd (for_each_id sv c f ids s)) = storage_calls s ++ log /\
    map fst log = map c (firstn n ids) /\
    Forall (fun x => snd x = None) (removelast log) /\
    match fst (for_each_id sv c f ids s) with
    | Some _ =>
        n = length ids /\ Forall (fun x => snd x = None) log /\
        writer_calls (snd (for_each_id sv c f ids s)) = writer_calls s
    | None =>
        exists e W,
          last (map snd log) None = Some e /\
          writer_calls (snd (for_each_id sv c f ids s)) = writer_calls s ++ W /\
          status_code W = 400 /\ body_written W = bytes_of e
    end.
Proof.
  induction ids as [|id ids IH]; intros s.
  - exists 0, []. simpl. rewrite app_nil_r. repeat split; constructor.
  - cbn [for_each_id]. unfold httpError. act_run.
    destruct (f id (db s)) as [[e|] d1] eqn:Ef;
      cbn [db storage_calls writer_calls fst snd].
    + exists 1, [(c id, Some e)]. cbn [fst snd length firstn map removelast].
      repeat split; [lia | constructor|].
      exists e, [Header_Set "Referrer-Policy" "no-referrer";
                 Header_Set "Content-Security-Policy"
                   (config_ContentSecurityPolicy sv);
                 WriteHeader 400; Header_Set "Content-Type" "text/plain";
                 Write (bytes_of e)].
      repeat split.
      * rewrite <- !app_assoc. reflexivity.
      * simpl. apply app_nil_r.
    + match goal with
      | |- context [for_each_id sv c f ids ?s1] =>
          destruct (IH s1) as (n & log & Hn & Hc & Hm & Hr & Ho)
      end.
      cbn [storage_calls writer_calls] in Hc, Ho.
      exists (Datatypes.S n), ((c id, None) :: log).
      cbn [length firstn map fst].
      split; [lia|]. split; [rewrite Hc, <- app_assoc; reflexivity|].
      split; [rewrite Hm; reflexivity|].
      split.
      { destruct log as [|x log]; [constructor|].
        change (removelast ((c id, None) :: x :: log))
          with ((c id, None) :: removelast (x :: log)).
        constructor; [reflexivity | exact Hr]. }
      destruct (fst (for_each_id sv c f ids _)).
      * destruct Ho as (-> & Hall & Hw). repeat split; auto.
      * destruct Ho as (e & W & Hl & Hw & Hs & Hb).
        exists e, W. repeat split; auto.
        destruct log as [|x log]; [discriminate|]. exact Hl.
Qed.

Lemma for_each_id_then_ok (c : string -> StorageCall)
      (f : string -> storage.Store S -> option string * storage.Store S)
      (ids : list string) (d : storage.Store S) :
  let final :=
    serve (for_each_id sv c f ids ~;;
           wr (Header_Add "Content-Type" "text/plain") ~;;
           wr (Write (bytes_of "ok"))) d in
  stops_at_first_error (map c ids) (storage_calls final) (writer_calls final).
Proof.
  cbv zeta. cbv [serve act_bind].
  match goal with
  | |- context [for_each_id sv c f ids ?s0] =>
      destruct (for_each_id_run c f ids s0) as (n & log & Hn & Hc & Hm & Hr & Ho);
      destruct (for_each_id sv c f ids s0) as [[[]|] s1]
  end; cbn [fst snd storage_calls writer_calls app] in *.
  - destruct Ho as (-> & Hall & Hw). act_run. rewrite Hc, Hw.
    exists (length ids). rewrite length_map, Hm, firstn_map.
    split; [lia|]. split; [reflexivity|]. split; [exact Hr|].
    left. repeat split; auto.
  - destruct Ho as (e & W & Hl & Hw & Hs & Hb). rewrite Hc, Hw.
    exists n. rewrite length_map, Hm, firstn_map.
    repeat split; auto. right. exists e; auto.
Qed.

(** X2: [SetReadStatus] with identifiers marks them one by one in the order
    of the request, all read or all unread, and stops at the first one the
    store refuses: the identifiers after it are not touched, those before
    it stay marked, and the answer is the error of the store; without an
    error every identifier is marked and the answer is [ok]. *)
Theorem SetReadStatus_stops_at_first_error
        (r : HttpRequest) (d : storage.Store S)
        (read : bool) (ids : list string) :
  json_Decode_Read_IDs sv (r_Body r) = Okay (read, ids) ->
  ids <> [] ->
  let final := serve (SetReadStatus sv r) d in
  stops_at_first_error
    (map (if read then Call_MarkRead else Call_MarkUnread) ids)
    (storage_calls final) (writer_calls final).
Proof.
  intros Hd Hids. unfold SetReadStatus. rewrite Hd.
  destruct ids as [|id ids]; [congruence|].
  cbn [length Nat.eqb]. destruct read; apply for_each_id_then_ok.
Qed.

(** X3: [SetReadStatus] without identifiers makes one call to the store,
    for all the messages at once, and answers with its outcome. *)
Theorem SetReadStatus_without_ids_marks_all
        (r : HttpRequest) (d : storage.Store S) (read : bool) :
  json_Decode_Read_IDs sv (r_Body r) = Okay (read, []) ->
  let final := serve (SetReadStatus sv r) d in
  stops_at_first_error
    [if read then Call_MarkAllRead else Call_MarkAllUnread]
    (storage_calls final) (writer_calls final) /\
  length (storage_calls final) = 1.
Proof.
  intros Hd. unfold SetReadStatus. rewrite Hd. cbn [length Nat.eqb].
  unfold httpError.
  destruct read; act_run;
    [destruct (storage.MarkAllRead S d) as [[e|] d1]
    |destruct (storage.MarkAllUnread S d) as [[e|] d1]];
    cbn [fst snd storage_calls writer_calls app];
    (split; [|reflexivity]); exists 1; cbn [length firstn map fst removelast];
    (split; [lia|]); (split; [reflexivity|]); (split; [apply Forall_nil|]).
  - right. exists e. simpl. rewrite app_nil_r. auto.
  - left. simpl. repeat split; auto.
  - right. exists e. simpl. rewrite app_nil_r. auto.
  - left. simpl. repeat split; auto.
Qed.

(** X4: a request of [SetReadStatus] whose body its decoder refuses
    changes nothing: no call is made to the store, and the answer is 400
    with the error of the decoder; the same holds of [SetMessageTags] and
    its own decoder, each handler for itself. *)
Theorem undecodable_body_changes_nothing
        (r : HttpRequest) (d : storage.Store S) :
  (forall e,
      json_Decode_Read_IDs sv (r_Body r) = Err e ->
      let final := serve (SetReadStatus sv r) d in
      storage_calls final = [] /\ db final = d /\
      status_code (writer_calls final) = 400 /\
      body_written (writer_calls final) = bytes_of e) /\
  (forall e,
      json_Decode_Tags_IDs sv (r_Body r) = Err e ->
      let final := serve (SetMessageTags sv r) d in
      storage_calls final = [] /\ db final = d /\
      status_code (writer_calls final) = 400 /\
      body_written (writer_calls final) = bytes_of e).
Proof.
  split; intros e H; unfold SetReadStatus, SetMessageTags; rewrite H;
    unfold httpError; act_run; simpl; repeat split; apply app_nil_r.
Qed.

(** X5: [SetMessageTags] sets the tags of the request on the identifiers
    one by one, in their order, and stops at the first one the store
    refuses; with no identifier it makes no call and answers [ok]. *)
Theorem SetMessageTags_stops_at_first_error
        (r : HttpRequest) (d : storage.Store S)
        (tags ids : list string) :
  json_Decode_Tags_IDs sv (r_Body r) = Okay (tags, ids) ->
  let final := serve (SetMessageTags sv r) d in
  stops_at_first_error
    (map (fun id => Call_SetMessageTags id tags) ids)
    (storage_calls final) (writer_calls final) /\
  (ids = [] -> storage_calls final = [] /\ db final = d).
Proof.
  intros Hd. unfold SetMessageTags. rewrite Hd.
  destruct ids as [|id ids].
  - cbn [length Nat.ltb Nat.leb]. act_run. split; [|auto].
    exists 0. simpl. split; [lia|]. split; [reflexivity|].
    split; [constructor|]. left. repeat split; auto.
  - change (0 <? length (id :: ids))%nat with true. cbv iota.
    split; [apply for_each_id_then_ok | discriminate].
Qed.

(** X6: [DeleteMessages] makes exactly one call to the store: it deletes
    all the messages when the body does not decode or names no identifier,
    and the identifiers of the body otherwise; the answer is [ok], or 400
    with the error of that call. *)
Theorem DeleteMessages_one_call (r : HttpRequest) (d : storage.Store S) :
  let final := serve (DeleteMessages sv r) d in
  exists e,
    storage_calls final =
      [(match json_Decode_IDs sv (r_Body r) with
        | Okay (id :: ids) => Call_DeleteMessages (id :: ids)
        | _ => Call_DeleteAllMessages
        end, e)] /\
    status_code (writer_calls final)
    = match e with None => 200 | Some _ => 400 end /\
    body_written (writer_calls final)
    = bytes_of (match e with None => "ok" | Some e' => e' end).
Proof.
  unfold DeleteMessages, httpError. cbv zeta.
  destruct (json_Decode_IDs sv (r_Body r)) as [[|id ids]|e0];
    cbn [length Nat.eqb]; act_run;
    match goal with
    | |- context [storage.DeleteAllMessages S d] =>
        destruct (storage.DeleteAllMessages S d) as [[e|] d1]
    | |- context [storage.DeleteMessages S ?l d] =>
        destruct (storage.DeleteMessages S l d) as [[e|] d1]
    end;
    cbn [fst snd storage_calls writer_calls app];
    eexists; (split; [reflexivity|]); simpl; rewrite ?app_nil_r; auto.
Qed.

(** X7: a search without a query, or with a blank one, is refused by
    [Search] and by [DeleteSearch] before the store is called: nothing is
    searched and nothing is deleted. *)
Theorem blank_query_is_refused (r : HttpRequest) (d : storage.Store S) :
  strings_TrimSpace sv (URL_Query_Get r "query") = "" ->
  (let final := serve (Search sv r) d in
   storage_calls final = [] /\ db final = d /\
   status_code (writer_calls final) = 400 /\
   body_written (writer_calls final) = bytes_of "Error: no search query") /\
  (let final := serve (DeleteSearch sv r) d in
   storage_calls final = [] /\ db final = d /\
   status_code (writer_calls final) = 400 /\
   body_written (writer_calls final) = bytes_of "Error: no search query").
Proof.
  intros H. unfold Search, DeleteSearch. rewrite H. cbn [String.eqb].
  unfold httpError. act_run. simpl. repeat split.
Qed.

(** X8: [DeleteSearch] calls the store at most once, with the trimmed
    query, which is not empty, and answers [ok] exactly when that call
    succeeded. *)
Theorem DeleteSearch_one_call (r : HttpRequest) (d : storage.Store S) :
  let final := serve (DeleteSearch sv r) d in
  let search := strings_TrimSpace sv (URL_Query_Get r "query") in
  (search = "" /\ storage_calls final = []) \/
  (search <> "" /\
   exists e,
     storage_calls final
     = [(Call_DeleteSearch search (URL_Query_Get r "tz"), e)] /\
     status_code (writer_calls final)
     = match e with None => 200 | Some _ => 400 end /\
     body_written (writer_calls final)
     = bytes_of (match e with None => "ok" | Some e' => e' end)).
Proof.
  cbv zeta. unfold DeleteSearch, httpError.
  destruct (strings_TrimSpace sv (URL_Query_Get r "query") =? "")%string
    eqn:E.
  - left. apply String.eqb_eq in E. split; [exact E|]. act_run. reflexivity.
  - right. apply String.eqb_neq in E. split; [exact E|]. act_run.
    match goal with
    | |- context [storage.DeleteSearch S ?q ?tz d] =>
        destruct (storage.DeleteSearch S q tz d) as [[e|] d1]
    end;
      cbn [fst snd storage_calls writer_calls app];
      eexists; (split; [reflexivity|]); simpl; rewrite ?app_nil_r; auto.
Qed.

(** X9: [GetMessages] asks the store for one page, from an offset that is
    not negative and of a size that is at least one; when the store fails
    the answer is 400 with its error and no statistics are read. *)
Theorem GetMessages_lists_one_page (r : HttpRequest) (d : storage.Store S) :
  let final := serve (GetMessages sv r) d in
  exists start limit,
    (0 <= start)%Z /\ (1 <= limit)%Z /\
    match fst (storage.List S start limit d) with
    | Okay messages =>
        map fst (storage_calls final) = [Call_List start limit; Call_StatsGet]
        /\ status_code (writer_calls final) = 200
    | Err e =>
        storage_calls final = [(Call_List start limit, Some e)] /\
        status_code (writer_calls final) = 400 /\
        body_written (writer_calls final) = bytes_of e
    end.
Proof.
  cbv zeta. unfold GetMessages.
  pose proof (getStartLimit_bounds r) as (H0 & H1 & _).
  destruct (getStartLimit sv r) as [start limit]. cbn [fst snd] in H0, H1.
  exists start, limit. split; [exact H0|]. split; [exact H1|].
  unfold httpError. act_run.
  destruct (storage.List S start limit d) as [[messages|e] d1];
    cbn [db fst snd storage_calls writer_calls app error_of].
  - destruct (storage.StatsGet S d1) as [stats d2].
    cbn [fst snd storage_calls writer_calls app map]. split; reflexivity.
  - simpl. rewrite ?app_nil_r. auto.
Qed.

(** X10: [Search] hands the store the trimmed query and the time zone of
    the request, with an offset that is not negative and a size that is at
    least one. *)
Theorem Search_searches_one_page (r : HttpRequest) (d : storage.Store S) :
  strings_TrimSpace sv (URL_Query_Get r "query") <> "" ->
  let final := serve (Search sv r) d in
  exists start limit e,
    (0 <= start)%Z /\ (1 <= limit)%Z /\
    hd_error (storage_calls final)
    = Some (Call_Search (strings_TrimSpace sv (URL_Query_Get r "query"))
              (URL_Query_Get r "tz") start limit, e) /\
    (e <> None ->
     length (storage_calls final) = 1 /\
     status_code (writer_calls final) = 400).
Proof.
  intros Hq. cbv zeta. unfold Search.
  apply String.eqb_neq in Hq. rewrite Hq.
  pose proof (getStartLimit_bounds r) as (H0 & H1 & _).
  destruct (getStartLimit sv r) as [start limit]. cbn [fst snd] in H0, H1.
  unfold httpError. act_run.
  match goal with
  | |- context [storage.Search S ?q ?tz start limit d] =>
      destruct (storage.Search S q tz start limit d)
        as [[[messages results]|e] d1]
  end; cbn [db fst snd storage_calls writer_calls app error_of].
  - destruct (storage.StatsGet S d1) as [stats d2].
    cbn [db fst snd storage_calls writer_calls app error_of].
    exists start, limit, None. repeat split; auto; congruence.
  - exists start, limit, (Some e). repeat split; auto.
Qed.

Ltac act_next :=
  cbn [db storage_calls writer_calls fst snd app error_of].

(** X11: when the identifier is [latest] and the store has no latest
    message, [GetMessage], [DownloadRaw] and [HTMLCheck] answer 404 with
    the error of the store and ask the store for no message. *)
Theorem latest_not_found (r : HttpRequest) (d : storage.Store S) (e : string) :
  mux_Vars r "id" = "latest" ->
  fst (storage.LatestID S r d) = Err e ->
  Forall (fun final : World S =>
            storage_calls final = [(Call_LatestID, Some e)] /\
            status_code (writer_calls final) = 404 /\
            body_written (writer_calls final) = bytes_of e)
         [serve (GetMessage sv r) d; serve (DownloadRaw sv r) d;
          serve (HTMLCheck sv r) d].
Proof.
  intros Hid He.
  unfold GetMessage, DownloadRaw, HTMLCheck, latest. rewrite Hid.
  cbn [String.eqb Ascii.eqb Bool.eqb]. act_run.
  destruct (storage.LatestID S r d) as [[id|e0] d1]; cbn [fst] in He;
    [discriminate|]. inversion He; subst e0. act_next.
  repeat constructor; simpl; apply app_nil_r.
Qed.

(** X12: [DownloadRaw] under [latest] asks the store for the message the
    store names as the latest, writes its bytes unchanged, and names the
    download after that identifier. *)
Theorem DownloadRaw_latest (r : HttpRequest) (d d1 d2 : storage.Store S)
        (id : string) (data : bytes) :
  mux_Vars r "id" = "latest" ->
  storage.LatestID S r d = (Okay id, d1) ->
  storage.GetMessageRaw S id d1 = (Okay data, d2) ->
  let final := serve (DownloadRaw sv r) d in
  storage_calls final = [(Call_LatestID, None); (Call_GetMessageRaw id, None)]
  /\ status_code (writer_calls final) = 200
  /\ body_written (writer_calls final) = data
  /\ header_values "Content-Disposition" (writer_calls final)
     = if (FormValue r "dl" =? "1")%string
       then ["attachment; filename=" +++ dquote +++ id +++ ".eml" +++ dquote]
       else [].
Proof.
  intros Hid Hl Hg. cbv zeta. unfold DownloadRaw, latest. rewrite Hid.
  cbn [String.eqb Ascii.eqb Bool.eqb]. act_run. rewrite Hl. act_next.
  rewrite Hg. act_next.
  destruct (FormValue r "dl" =? "1")%string; act_next; simpl;
    rewrite ?app_nil_r; auto.
Qed.

(** X13: [DownloadRaw] for an identifier writes the bytes the store holds
    for it, unchanged, as a download when [dl] is [1]; for an identifier
    the store does not have the answer is the plain 404 page, which does
    not show the error of the store. *)
Theorem DownloadRaw_by_id (r : HttpRequest) (d : storage.Store S) :
  mux_Vars r "id" <> "latest" ->
  let id := mux_Vars r "id" in
  let final := serve (DownloadRaw sv r) d in
  match fst (storage.GetMessageRaw S id d) with
  | Okay data =>
      storage_calls final = [(Call_GetMessageRaw id, None)] /\
      status_code (writer_calls final) = 200 /\
      body_written (writer_calls final) = data /\
      header_values "Content-Disposition" (writer_calls final)
      = if (FormValue r "dl" =? "1")%string
        then ["attachment; filename=" +++ dquote +++ id +++ ".eml" +++ dquote]
        else []
  | Err e =>
      storage_calls final = [(Call_GetMessageRaw id, Some e)] /\
      status_code (writer_calls final) = 404 /\
      body_written (writer_calls final) = bytes_of "404 page not found"
  end.
Proof.
  intros Hid. cbv zeta. unfold DownloadRaw, latest, fourOFour.
  apply String.eqb_neq in Hid. rewrite Hid. act_run.
  destruct (storage.GetMessageRaw S (mux_Vars r "id") d) as [[data|e] d1];
    act_next.
  - destruct (FormValue r "dl" =? "1")%string; act_next; simpl;
      rewrite ?app_nil_r; auto.
  - simpl. auto.
Qed.

(** X14: [DownloadAttachment] names the part after its file name, or after
    its content identifier when it has no file name, and writes its
    content unchanged under its own content type; the identifier [latest]
    is handed to the store as it is. *)
Theorem DownloadAttachment_part (r : HttpRequest) (d : storage.Store S) :
  let id := mux_Vars r "id" in
  let partID := mux_Vars r "partID" in
  let final := serve (DownloadAttachment sv r) d in
  map fst (storage_calls final) = [Call_GetAttachmentPart id partID] /\
  match fst (storage.GetAttachmentPart S id partID d) with
  | Okay a =>
      status_code (writer_calls final) = 200 /\
      body_written (writer_calls final) = storage.Content a /\
      header_values "Content-Type" (writer_calls final)
      = [storage.ContentType a] /\
      header_values "Content-Disposition" (writer_calls final)
      = ["filename=" +++ dquote
           +++ (if (storage.FileName a =? "")%string
                then storage.ContentID a else storage.FileName a)
           +++ dquote]
  | Err _ =>
      status_code (writer_calls final) = 404 /\
      body_written (writer_calls final) = bytes_of "404 page not found"
  end.
Proof.
  cbv zeta. unfold DownloadAttachment, fourOFour. act_run.
  destruct (storage.GetAttachmentPart S (mux_Vars r "id")
              (mux_Vars r "partID") d) as [[a|e] d1]; act_next.
  - simpl. rewrite app_nil_r. auto.
  - simpl. auto.
Qed.

(** X15: [HTMLCheck] answers 200 only with the result of the checker on
    the HTML of a message the store returned, and that HTML is not
    empty. *)
Theorem HTMLCheck_ok_only_with_html (r : HttpRequest) (d : storage.Store S) :
  let final := serve (HTMLCheck sv r) d in
  status_code (writer_calls final) = 200 ->
  exists id d' msg checks,
    In (Call_GetMessage id, None) (storage_calls final) /\
    fst (storage.GetMessage S id d') = Okay msg /\
    storage.HTML S msg <> "" /\
    htmlcheck_RunTests sv (storage.HTML S msg) = Okay checks /\
    body_written (writer_calls final) = json_Marshal_htmlcheck sv checks.
Proof.
  cbv zeta. unfold HTMLCheck, latest, fourOFour, httpError.
  assert (Hmain : forall id d0 calls0,
    let fin :=
      snd ((got <~ call (Call_GetMessage id) (storage.GetMessage S id) ;;
            match got with
            | Err _ => fourOFour sv ~;; act_return
            | Okay msg =>
                if (storage.HTML S msg =? "")%string then
                  httpError sv "message does not contain HTML" ~;; act_return
                else
                  match htmlcheck_RunTests sv (storage.HTML S msg) with
                  | Err e => httpError sv e ~;; act_return
                  | Okay checks =>
                      let bytes := json_Marshal_htmlcheck sv checks in
                      wr (Header_Add "Content-Type" "application/json") ~;;
                      wr (Write bytes)
                  end
            end)
             {| db := d0; storage_calls := calls0; writer_calls := [] |}) in
    status_code (writer_calls fin) = 200 ->
    exists d' msg checks,
      In (Call_GetMessage id, None) (storage_calls fin) /\
      fst (storage.GetMessage S id d') = Okay msg /\
      storage.HTML S msg <> "" /\
      htmlcheck_RunTests sv (storage.HTML S msg) = Okay checks /\
      body_written (writer_calls fin) = json_Marshal_htmlcheck sv checks).
  { intros id d0 calls0. cbv zeta. unfold fourOFour, httpError. act_run.
    destruct (storage.GetMessage S id d0) as [[msg|e] d1] eqn:Eg; act_next;
      [|simpl; discriminate].
    destruct (storage.HTML S msg =? "")%string eqn:Eh; act_next;
      [simpl; discriminate|].
    destruct (htmlcheck_RunTests sv (storage.HTML S msg)) as [checks|e]
      eqn:Er; act_next; [|simpl; discriminate].
    intros _. exists d0, msg, checks. rewrite Eg.
    repeat split; auto.
    - apply in_or_app; right; left; reflexivity.
    - apply String.eqb_neq; exact Eh.
    - simpl. apply app_nil_r. }
  destruct (mux_Vars r "id" =? "latest")%string.
  - act_run. destruct (storage.LatestID S r d) as [[id|e] d1]; act_next.
    + intros H. exists id.
      apply (Hmain id d1 [(Call_LatestID, None)]). exact H.
    + simpl. discriminate.
  - intros H. exists (mux_Vars r "id"). apply (Hmain _ d []). exact H.
Qed.

End HandlerFacts.

(** * More on [ReleaseMessage] *)

Section ReleaseMore.

Variable env : Env.
Variable cfg : SMTPRelayConfig.

(** X16: a release calls the outbound transport at most once: a failed
    delivery is not tried again. *)
Theorem at_most_one_transport_call (r : Request) :
  (length (transport_calls env cfg r) <= 1)%nat.
Proof.
  destruct (transport_calls env cfg r) as [|c log] eqn:E; [simpl; lia|].
  assert (Hin : In c (transport_calls env cfg r)) by (rewrite E; left; auto).
  destruct (transport_calls_inv env cfg r c Hin)
    as (msg & data & m & froms & _ & _ & _ & _ & _ & _ & _ & _ & H & _).
  rewrite E in H. inversion H. simpl. lia.
Qed.

Lemma ReleaseMessage_dispatch
      (r : Request) (msg : bytes) (data : releaseMessageRequestBody)
      (m : mail_Header env) (froms : list mail_Address) (from : string)
      (msg' : bytes) :
  storage_GetMessageRaw env (vars_id r) = Okay msg ->
  Body r = Okay data ->
  Forall (accepted env cfg) (To data) -> To data <> [] ->
  mail_ReadMessage env msg = Okay m ->
  Header_AddressList env m "From" = Okay froms ->
  envelope_sender env cfg m froms = Some from ->
  rewritten env cfg m msg = Okay msg' ->
  ReleaseMessage env cfg r [] =
  (inl (match smtpd_Send env from (To data) msg' with
        | Some e => HttpError DeliveryFailed ("SMTP error: " +++ e)
        | None => RespOK
        end),
   [{| send_from := from; send_to := To data; send_msg := msg' |}]).
Proof.
  intros Hmsg Hbody Hacc Hne Hm Hfrom Hsender Hrw.
  unfold ReleaseMessage.
  rewrite Hmsg. hsimpl. rewrite Hbody. hsimpl.
  match goal with
  | |- bind (check_recipients _ _ ?tos) ?k ?l = _ =>
      destruct (bind_check_recipients env cfg tos k l)
        as [[_ ->]|[H _]]; [|contradiction]
  end.
  destruct (To data) as [|to tos] eqn:Eto; [congruence|].
  cbn [length Nat.eqb]. hsimpl. rewrite Hm. hsimpl. rewrite Hfrom. hsimpl.
  unfold envelope_sender in Hsender.
  destruct froms as [|a froms]; [discriminate|]. hsimpl.
  unfold rewritten, rewrites_return_path in Hrw.
  destruct (tools.RemoveMessageHeaders msg ["Bcc"]) as [msg1|e1];
    [|discriminate]. cbn [and_then] in Hrw.
  assert (Hfin : forall (fm : string * bytes),
    and_then (tools.UpdateMessageHeader (snd fm) "Date" (time_Now env))
      (fun msg4 => tools.UpdateMessageHeader msg4 "Message-Id" (message_id env))
    = Okay msg' ->
    (msg1 <- try MalformedMessage
               (tools.UpdateMessageHeader (snd fm) "Date" (time_Now env)) ;;
     msg2 <- try MalformedMessage
               (tools.UpdateMessageHeader msg1 "Message-Id" (message_id env)) ;;
     err <- send env (fst fm) (to :: tos) msg2 ;;
     match err with
     | Some e => reply (HttpError DeliveryFailed ("SMTP error: " +++ e))
     | None => reply RespOK
     end : Handler unit) [] =
    (inl (match smtpd_Send env (fst fm) (to :: tos) msg' with
          | Some e => HttpError DeliveryFailed ("SMTP error: " +++ e)
          | None => RespOK
          end),
     [{| send_from := fst fm; send_to := to :: tos; send_msg := msg' |}])).
  { intros fm H.
    destruct (tools.UpdateMessageHeader (snd fm) "Date" (time_Now env))
      as [msg4|e]; [|discriminate]. cbn [and_then] in H. hsimpl.
    rewrite H. hsimpl. rewrite bind_send.
    destruct (smtpd_Send env (fst fm) (to :: tos) msg'); reflexivity. }
  assert (Hrest : forall from0,
    from = (if (ReturnPath cfg =? "")%string then from0 else ReturnPath cfg) ->
    (msg0 <- try MalformedMessage (Okay msg1) ;;
     fm <- (if negb (ReturnPath cfg =? "")%string then
              msg1 <- (if negb (Header_Get env m "Return-Path"
                                  =? "<" +++ ReturnPath cfg +++ ">")%string
                       then
                         msg1 <- try MalformedMessage
                                   (tools.RemoveMessageHeaders msg0
                                      ["Return-Path"]) ;;
                         ret (bytes_of ("Return-Path: <" +++ ReturnPath cfg
                                          +++ ">" +++ crlf) ++ msg1)
                       else ret msg0) ;;
              ret (ReturnPath cfg, msg1)
            else ret (from0, msg0)) ;;
     msg1 <- try MalformedMessage
               (tools.UpdateMessageHeader (snd fm) "Date" (time_Now env)) ;;
     msg2 <- try MalformedMessage
               (tools.UpdateMessageHeader msg1 "Message-Id" (message_id env)) ;;
     err <- send env (fst fm) (to :: tos) msg2 ;;
     match err with
     | Some e => reply (HttpError DeliveryFailed ("SMTP error: " +++ e))
     | None => reply RespOK
     end : Handler unit) [] =
    (inl (match smtpd_Send env from (to :: tos) msg' with
          | Some e => HttpError DeliveryFailed ("SMTP error: " +++ e)
          | None => RespOK
          end),
     [{| send_from := from; send_to := to :: tos; send_msg := msg' |}])).
  { intros from0 Hf. hsimpl.
    destruct (ReturnPath cfg =? "")%string; cbn [negb andb] in *.
    - hsimpl. subst from. apply (Hfin (from0, msg1)). exact Hrw.
    - destruct (Header_Get env m "Return-Path"
                  =? "<" +++ ReturnPath cfg +++ ">")%string;
        cbn [negb] in *.
      + hsimpl. subst from. apply (Hfin (ReturnPath cfg, msg1)). exact Hrw.
      + destruct (tools.RemoveMessageHeaders msg1 ["Return-Path"])
          as [msg2|e2]; [|discriminate]. cbn [and_then] in Hrw. hsimpl.
        subst from.
        apply (Hfin (ReturnPath cfg, return_path_field cfg ++ msg2)).
        exact Hrw. }
  destruct (Header_AddressList env m "Sender") as [[|s ss]|e];
    [discriminate| |]; hsimpl; apply Hrest; congruence.
Qed.

(** X17: a release that passes every check hands the transport the
    resolved envelope sender, the recipients of the request and the
    rewritten message, once, and answers [ok] or, when the transport
    fails, [SMTP error: ] followed by the error of the transport. *)
Theorem release_dispatches_when_all_pass
      (r : Request) (msg : bytes) (data : releaseMessageRequestBody)
      (m : mail_Header env) (froms : list mail_Address) (from : string)
      (msg' : bytes) :
  storage_GetMessageRaw env (vars_id r) = Okay msg ->
  Body r = Okay data ->
  Forall (accepted env cfg) (To data) -> To data <> [] ->
  mail_ReadMessage env msg = Okay m ->
  Header_AddressList env m "From" = Okay froms ->
  envelope_sender env cfg m froms = Some from ->
  rewritten env cfg m msg = Okay msg' ->
  transport_calls env cfg r
  = [{| send_from := from; send_to := To data; send_msg := msg' |}] /\
  response env cfg r
  = match smtpd_Send env from (To data) msg' with
    | Some e => HttpError DeliveryFailed ("SMTP error: " +++ e)
    | None => RespOK
    end.
Proof.
  intros. unfold transport_calls, response.
  erewrite ReleaseMessage_dispatch by eassumption. split; reflexivity.
Qed.



(** X19: the recipients are judged before the message is read: with no
    recipient, or with one that is refused, the release ends with
    [No valid addresses found], [Invalid email address] or
    [Mail address does not match allowlist], also for a stored message that
    would not parse, and nothing is sent. *)
Theorem recipients_checked_before_message
        (r : Request) (msg : bytes) (data : releaseMessageRequestBody) :
  storage_GetMessageRaw env (vars_id r) = Okay msg ->
  Body r = Okay data ->
  To data = [] \/ ~ Forall (accepted env cfg) (To data) ->
  (exists kind text,
      response env cfg r = HttpError kind text /\
      (kind = InvalidAddress \/ kind = RecipientNotAllowed \/
       kind = EmptyRecipientList) /\
      (To data = [] ->
       kind = EmptyRecipientList /\ text = "No valid addresses found")) /\
  transport_calls env cfg r = [].
Proof.
  intros Hmsg Hbody Hto.
  assert (H : exists kind text,
    ReleaseMessage env cfg r [] = (inl (HttpError kind text), []) /\
    (kind = InvalidAddress \/ kind = RecipientNotAllowed \/
     kind = EmptyRecipientList) /\
    (To data = [] ->
     kind = EmptyRecipientList /\ text = "No valid addresses found")).
  { unfold ReleaseMessage.
    rewrite Hmsg. hsimpl. rewrite Hbody. hsimpl.
    destruct Hto as [Hto|Hto].
    - rewrite Hto. exists EmptyRecipientList, "No valid addresses found".
      repeat split; auto.
    - destruct (check_recipients_fail env cfg (To data) [] Hto)
        as (kind & text & Hk & Hc).
      exists kind, text. unfold bind at 1. rewrite Hc.
      split; [reflexivity|]. split; [tauto|].
      intros E. rewrite E in Hto. exfalso; apply Hto; constructor. }
  destruct H as (kind & text & H & Hk & He).
  unfold response, transport_calls. rewrite H.
  split; [exists kind, text; auto | reflexivity].
Qed.

End ReleaseMore.

(** * [CheckDomains] *)

Lemma in_map_set {V} (key : string) (value : V) (m : list (string * V))
      (x : string * V) :
  In x (map_set key value m) -> x = (key, value) \/ In x m.
Proof.
  unfold map_set. intros [H|H]; [left; auto|].
  apply filter_In in H as [H _]. right; exact H.
Qed.

Lemma in_map_set_other {V} (key : string) (value : V) (m : list (string * V))
      (k : string) (v : V) :
  k <> key -> In (k, v) m -> In (k, v) (map_set key value m).
Proof.
  intros Hk H. right. apply filter_In. split; [exact H|].
  simpl. apply negb_true_iff, String.eqb_neq. exact Hk.
Qed.

Lemma filter_step_unclean (acc : list (string * JSON)) (k : string) (v : JSON) :
  filter_step acc (k, v) = if unclean v then map_set k v acc else acc.
Proof. destruct v; reflexivity. Qed.

Lemma fold_filter_step_sound (m acc : list (string * JSON)) (k : string)
      (v : JSON) :
  In (k, v) (fold_left filter_step m acc) ->
  In (k, v) acc \/ (In (k, v) m /\ unclean v = true).
Proof.
  revert acc; induction m as [|[k0 v0] m IH]; intros acc; cbn [fold_left];
    [auto|].
  intros H. apply IH in H as [H|[H1 H2]]; [|simpl; auto].
  rewrite filter_step_unclean in H.
  destruct (unclean v0) eqn:E; [|auto].
  apply in_map_set in H as [H|H]; [|auto].
  inversion H; subst. right. split; [left; reflexivity | exact E].
Qed.

Lemma fold_filter_step_keeps (m acc : list (string * JSON)) (k : string)
      (v : JSON) :
  ~ In k (map fst m) -> In (k, v) acc ->
  In (k, v) (fold_left filter_step m acc).
Proof.
  revert acc; induction m as [|[k0 v0] m IH]; intros acc Hk H;
    cbn [fold_left]; [auto|].
  simpl in Hk. apply IH; [tauto|].
  rewrite filter_step_unclean. destruct (unclean v0); [|exact H].
  apply in_map_set_other; [|exact H]. intros ->. tauto.
Qed.

Lemma fold_filter_step_complete (m acc : list (string * JSON)) (k : string)
      (v : JSON) :
  NoDup (map fst m) -> In (k, v) m -> unclean v = true ->
  In (k, v) (fold_left filter_step m acc).
Proof.
  revert acc; induction m as [|[k0 v0] m IH]; intros acc Hnd Hin Hv;
    cbn [fold_left map fst In] in *; [tauto|].
  inversion Hnd as [|? ? Hk0 Hnd']; subst.
  destruct Hin as [E|Hin].
  - inversion E; subst. apply fold_filter_step_keeps; [exact Hk0|].
    rewrite filter_step_unclean, Hv. left; reflexivity.
  - apply IH; auto.
Qed.

(** X20: of the verdicts of VirusTotal for a domain, [CheckDomains] keeps
    exactly those that are objects whose [result] is not the string
    [clean], each under its own key and unchanged. *)
Theorem filter_unclean_keeps_unclean (lastAnalysisResults : list (string * JSON)) :
  NoDup (map fst lastAnalysisResults) ->
  forall key value,
    In (key, value) (filter_unclean lastAnalysisResults) <->
    In (key, value) lastAnalysisResults /\ unclean value = true.
Proof.
  intros Hnd key value.
  unfold filter_unclean.
  split.
  - intros H. apply fold_filter_step_sound in H as [[]|H]. exact H.
  - intros [H1 H2]. apply fold_filter_step_complete; assumption.
Qed.

Section CheckDomainsFacts.

Variable sv : Services.
Variable hc : HttpClient.

Lemma check_domain_unclean (apiKey domain : string) (n n' : Net hc)
      (vs : list (string * JSON)) :
  check_domain hc apiKey domain n = (Okay vs, n') ->
  forall k v, In (k, v) vs -> unclean v = true.
Proof.
  unfold check_domain.
  destruct (http_NewRequest hc _) as [req|e]; [|discriminate].
  destruct (Client_Do hc _ n) as [[resp|e] n1]; [|discriminate].
  destruct (ioutil_ReadAll hc resp) as [body|e]; [|discriminate].
  destruct (negb _); [discriminate|].
  destruct (json_Unmarshal_VirusTotalResponse hc body) as [m|e];
    [|discriminate].
  intros H k v Hin. inversion H; subst.
  unfold filter_unclean in Hin.
  apply fold_filter_step_sound in Hin as [[]|[_ Hv]]. exact Hv.
Qed.

Lemma check_domains_inv (apiKey : string) (domains : list string) :
  forall results errors n results' errors' n',
    check_domains hc apiKey domains results errors n
    = (results', errors', n') ->
    (exists failed,
        errors' = errors ++ failed /\
        (length failed <= length domains)%nat /\
        (length failed = length domains -> results' = results)) /\
    (forall dom vs,
        In (dom, vs) results' ->
        In (dom, vs) results \/
        (In dom domains /\ forall k v, In (k, v) vs -> unclean v = true)).
Proof.
  induction domains as [|domain domains IH];
    intros results errors n results' errors' n'; cbn [check_domains].
  - intros H; inversion H; subst. split.
    + exists []. rewrite app_nil_r. auto.
    + auto.
  - destruct (check_domain hc apiKey domain n) as [[vs|e] n1] eqn:E; intros H.
    + apply IH in H as ((failed & -> & Hl & Hall) & Hres). split.
      * exists failed. split; [reflexivity|]. simpl. split; [lia|]. lia.
      * intros dom vs' Hin. apply Hres in Hin as [Hin|[Hin Hu]].
        -- apply in_map_set in Hin as [Hin|Hin]; [|auto].
           inversion Hin; subst. right. split; [left; reflexivity|].
           eapply check_domain_unclean; eauto.
        -- right. split; [right; exact Hin | exact Hu].
    + apply IH in H as ((failed & -> & Hl & Hall) & Hres). split.
      * exists (e :: failed). rewrite <- app_assoc. split; [reflexivity|].
        simpl. split; [lia|]. intros Hlen. apply Hall. lia.
      * intros dom vs' Hin. apply Hres in Hin as [Hin|[Hin Hu]]; [auto|].
        right. split; [right; exact Hin | exact Hu].
Qed.

(** X21: [CheckDomains] answers with the verdicts of the domains of the
    request that could be looked up, none of them clean; a lookup that
    fails is only printed, one line for each, and does not change the
    answer, which is 200 also when every lookup failed and the result is
    empty; the answer is 400 only for a body that does not decode or a
    result that does not encode. *)
Theorem CheckDomains_answers_despite_failures
        (r : HttpRequest) (n : Net hc) (d : storage.Store (st sv)) :
  let '(n', printed, act) := CheckDomains sv hc r n in
  let final := serve act d in
  storage_calls final = [] /\
  match json_Decode_Domains hc (r_Body r) with
  | Err e =>
      n' = n /\ printed = [] /\
      status_code (writer_calls final) = 400 /\
      body_written (writer_calls final) = bytes_of e
  | Okay domains =>
      exists results,
        (length printed <= length domains)%nat /\
        (length printed = length domains -> results = []) /\
        (forall dom vs,
            In (dom, vs) results ->
            In dom domains /\ forall k v, In (k, v) vs -> unclean v = true) /\
        match json_Encode_DomainsCheckResponse hc results with
        | Okay b =>
            status_code (writer_calls final) = 200 /\
            body_written (writer_calls final) = b
        | Err e =>
            status_code (writer_calls final) = 400 /\
            body_written (writer_calls final) = bytes_of e
        end
  end.
Proof.
  unfold CheckDomains.
  destruct (json_Decode_Domains hc (r_Body r)) as [domains|e].
  - destruct (check_domains hc (os_LookupEnv hc "VIRUSTOTAL_API_KEY")
                domains [] [] n) as [[results errors] n'] eqn:E.
    apply check_domains_inv in E as ((failed & -> & Hl & Hall) & Hres).
    cbn [app] in *. rewrite length_map.
    assert (Hw : storage_calls
                   (serve (wr (Header_Set "Content-Type" "application/json") ~;;
                           match json_Encode_DomainsCheckResponse hc results with
                           | Err e => httpError sv e ~;; act_return
                           | Okay b => wr (Write b)
                           end) d) = []).
    { unfold httpError. act_run.
      destruct (json_Encode_DomainsCheckResponse hc results); reflexivity. }
    split; [exact Hw|].
    exists results. repeat split; auto.
    + apply Hres in H as [[]|[H _]]. exact H.
    + intros k v Hin. apply Hres in H as [[]|[_ H]]. eapply H; eauto.
    + unfold httpError. act_run.
      destruct (json_Encode_DomainsCheckResponse hc results);
        simpl; rewrite ?app_nil_r; auto.
  - unfold httpError. act_run. simpl. rewrite app_nil_r. auto.
Qed.

End CheckDomainsFacts.

(** * The other handlers on examples *)

Section HandlersOnExamples.

Import Memory.

(** Marking [m1], an unknown identifier and [m2]: the store refuses the
    second, and [m2] stays unread. *)
Lemma mark_read_stops_at_unknown :
  let final :=
    serve (SetReadStatus services (request "" [] ["m1"; "zz"; "m2"])) mailbox in
  storage_calls final
  = [(Call_MarkRead "m1", None);
     (Call_MarkRead "zz", Some "message not found")] /\
  map s_read (db final) = [false; true] /\
  status_code (writer_calls final) = 400 /\
  body_written (writer_calls final) = bytes_of "message not found".
Proof. repeat split; vm_compute; reflexivity. Qed.

Lemma SetReadStatus_stops_at_first_error_witness :
  let final :=
    serve (SetReadStatus services (request "" [] ["m1"; "zz"; "m2"])) mailbox in
  stops_at_first_error
    [Call_MarkRead "m1"; Call_MarkRead "zz"; Call_MarkRead "m2"]
    (storage_calls final) (writer_calls final).
Proof.
  apply (SetReadStatus_stops_at_first_error services
           (request "" [] ["m1"; "zz"; "m2"]) mailbox true ["m1"; "zz"; "m2"]).
  - vm_compute; reflexivity.
  - discriminate.
Defined.

Lemma SetReadStatus_without_ids_marks_all_witness :
  let final := serve (SetReadStatus services (request "" [] [])) mailbox in
  stops_at_first_error [Call_MarkAllRead]
    (storage_calls final) (writer_calls final) /\
  length (storage_calls final) = 1.
Proof.
  apply (SetReadStatus_without_ids_marks_all services (request "" [] [])
           mailbox true).
  vm_compute; reflexivity.
Defined.

Lemma undecodable_body_changes_nothing_witness :
  (let final := serve (SetReadStatus services (request "" [] ["{"])) mailbox in
   storage_calls final = [] /\ db final = mailbox /\
   status_code (writer_calls final) = 400 /\
   body_written (writer_calls final) = bytes_of "json: cannot unmarshal") /\
  (let final := serve (SetMessageTags services (request "" [] ["{"])) mailbox in
   storage_calls final = [] /\ db final = mailbox /\
   status_code (writer_calls final) = 400 /\
   body_written (writer_calls final) = bytes_of "json: cannot unmarshal").
Proof.
  split.
  - apply (proj1 (undecodable_body_changes_nothing services
                    (request "" [] ["{"]) mailbox)).
    vm_compute; reflexivity.
  - apply (proj2 (undecodable_body_changes_nothing services
                    (request "" [] ["{"]) mailbox)).
    vm_compute; reflexivity.
Defined.

Lemma SetMessageTags_stops_at_first_error_witness :
  let final :=
    serve (SetMessageTags services (request "" [] ["m1"; "zz"])) mailbox in
  stops_at_first_error
    [Call_SetMessageTags "m1" ["urgent"]; Call_SetMessageTags "zz" ["urgent"]]
    (storage_calls final) (writer_calls final) /\
  (["m1"; "zz"] = [] -> storage_calls final = [] /\ db final = mailbox).
Proof.
  apply (SetMessageTags_stops_at_first_error services
           (request "" [] ["m1"; "zz"]) mailbox ["urgent"] ["m1"; "zz"]).
  vm_compute; reflexivity.
Defined.

Lemma blank_query_is_refused_witness :
  let r := request "" [("query", "  ")] [] in
  (let final := serve (Search services r) mailbox in
   storage_calls final = [] /\ db final = mailbox /\
   status_code (writer_calls final) = 400 /\
   body_written (writer_calls final) = bytes_of "Error: no search query") /\
  (let final := serve (DeleteSearch services r) mailbox in
   storage_calls final = [] /\ db final = mailbox /\
   status_code (writer_calls final) = 400 /\
   body_written (writer_calls final) = bytes_of "Error: no search query").
Proof.
  apply (blank_query_is_refused services (request "" [("query", "  ")] [])
           mailbox).
  vm_compute; reflexivity.
Defined.

Lemma Search_searches_one_page_witness :
  let r := request "" [("query", " m1 "); ("limit", "0")] [] in
  let final := serve (Search services r) mailbox in
  exists start limit e,
    (0 <= start)%Z /\ (1 <= limit)%Z /\
    hd_error (storage_calls final)
    = Some (Call_Search "m1" "" start limit, e) /\
    (e <> None ->
     length (storage_calls final) = 1 /\
     status_code (writer_calls final) = 400).
Proof.
  apply (Search_searches_one_page services
           (request "" [("query", " m1 "); ("limit", "0")] []) mailbox).
  vm_compute; discriminate.
Defined.

Lemma latest_not_found_witness :
  let r := request "latest" [] [] in
  Forall (fun final : World package =>
            storage_calls final = [(Call_LatestID, Some "Message not found")] /\
            status_code (writer_calls final) = 404 /\
            body_written (writer_calls final) = bytes_of "Message not found")
         [serve (GetMessage services r) []; serve (DownloadRaw services r) [];
          serve (HTMLCheck services r) []].
Proof.
  apply (latest_not_found services (request "latest" [] []) []
           "Message not found"); reflexivity.
Defined.

Lemma DownloadRaw_latest_witness :
  let final :=
    serve (DownloadRaw services (request "latest" [("dl", "1")] [])) mailbox in
  storage_calls final = [(Call_LatestID, None); (Call_GetMessageRaw "m2", None)]
  /\ status_code (writer_calls final) = 200
  /\ body_written (writer_calls final) = bytes_of "m2"
  /\ header_values "Content-Disposition" (writer_calls final)
     = ["attachment; filename=" +++ dquote +++ "m2" +++ ".eml" +++ dquote].
Proof.
  apply (DownloadRaw_latest services (request "latest" [("dl", "1")] [])
           mailbox mailbox mailbox "m2" (bytes_of "m2")); reflexivity.
Defined.

Lemma DownloadRaw_by_id_witness :
  let final := serve (DownloadRaw services (request "m1" [] [])) mailbox in
  storage_calls final = [(Call_GetMessageRaw "m1", None)] /\
  status_code (writer_calls final) = 200 /\
  body_written (writer_calls final) = bytes_of "m1" /\
  header_values "Content-Disposition" (writer_calls final) = [].
Proof.
  apply (DownloadRaw_by_id services (request "m1" [] []) mailbox).
  vm_compute; discriminate.
Defined.

Lemma HTMLCheck_ok_only_with_html_witness :
  let final := serve (HTMLCheck services (request "m2" [] [])) mailbox in
  exists id d' msg checks,
    In (Call_GetMessage id, None) (storage_calls final) /\
    fst (storage.GetMessage package id d') = Okay msg /\
    s_html msg <> "" /\
    htmlcheck_RunTests services (s_html msg) = Okay checks /\
    body_written (writer_calls final) = json_Marshal_htmlcheck services checks.
Proof.
  apply (HTMLCheck_ok_only_with_html services (request "m2" [] []) mailbox).
  vm_compute; reflexivity.
Defined.

End HandlersOnExamples.

Section ReleaseOnExamples.

Import Simple Examples.

Lemma release_dispatches_when_all_pass_witness :
  transport_calls (env with_bcc) no_policy to_bob
  = [{| send_from := "alice@example.com";
        send_to := ["bob@example.com"];
        send_msg := lines ["Date: Fri, 30 Oct 2026 10:00:00 +0000";
                           "From: alice@example.com";
                           "Subject: hi";
                           "Message-Id: <KwSysDpxcBU9FNhGkn2dCf@mailpit>";
                           "";
                           "body"] |}] /\
  response (env with_bcc) no_policy to_bob = RespOK.
Proof.
  apply (release_dispatches_when_all_pass (env with_bcc) no_policy to_bob
           with_bcc {| To := ["bob@example.com"] |} (header_fields with_bcc)
           [{| Name := ""; Address := "alice@example.com" |}]);
    try (vm_compute; reflexivity).
  - apply accepted_check. vm_compute; reflexivity.
  - discriminate.
Defined.


Lemma recipients_checked_before_message_witness :
  (exists kind text,
      response (env (bytes_of "no header")) no_policy (request [])
      = HttpError kind text /\
      (kind = InvalidAddress \/ kind = RecipientNotAllowed \/
       kind = EmptyRecipientList) /\
      (@nil string = [] ->
       kind = EmptyRecipientList /\ text = "No valid addresses found")) /\
  transport_calls (env (bytes_of "no header")) no_policy (request []) = [].
Proof.
  apply (recipients_checked_before_message (env (bytes_of "no header"))
           no_policy (request []) (bytes_of "no header") {| To := [] |});
    try (vm_compute; reflexivity).
  left; reflexivity.
Defined.

End ReleaseOnExamples.

(** Four verdicts: the clean one and the one that is no object are
    dropped, the other two are kept. *)
Lemma filter_unclean_keeps_unclean_witness :
  let verdicts :=
    [("Kaspersky", JObject [("result", JString "clean")]);
     ("Sophos", JObject [("result", JString "malware")]);
     ("Fortinet", JString "phishing");
     ("BitDefender", JObject [("category", JString "undetected")])] in
  (In ("Sophos", JObject [("result", JString "malware")])
      (filter_unclean verdicts) <->
   In ("Sophos", JObject [("result", JString "malware")]) verdicts /\
   unclean (JObject [("result", JString "malware")]) = true) /\
  (In ("Kaspersky", JObject [("result", JString "clean")])
      (filter_unclean verdicts) <->
   In ("Kaspersky", JObject [("result", JString "clean")]) verdicts /\
   unclean (JObject [("result", JString "clean")]) = true).
Proof.
  split; apply filter_unclean_keeps_unclean;
    repeat constructor; simpl; intuition discriminate.
Defined.
